(** * go-requiring: a shallow embedding of the validation engine

    The development follows the two Go files of the repository:
    - [validator.go]: the [Validator] interface, [rule], [RuleSet] with
      [Add], [offsetOf], [lookupStructField], [Validate], the builder
      [Struct], [RangeMinViolationError] and the [NotEmpty] validator;
    - the length family: [MinLength], [MaxLength], [Length], their
      [WithPrinter] / [WithPrinterFunc] methods, their violation errors
      and default printers.

    Go values that the engine inspects through [reflect] are modelled by
    the type [any]; panics are explicit ([outcome]); validators that are
    reached through pointers live in an explicit [heap]. *)

From Stdlib Require Import ZArith String Ascii DecimalString List Lia.
From stdpp Require Import gmap strings list fin_maps.

Local Open Scope Z_scope.

(** ** Panics and the result of a Go call *)

(** The ways a call of this package can panic. *)
Inductive panic : Set :=
| PanicXxx            (* panic("xxx") of lookupStructField *)
| PanicNilDeref       (* runtime error: nil pointer dereference *)
| PanicIndex          (* runtime error: index out of range *)
| PanicTypeAssertion  (* v.(T) on a value whose dynamic type is not T *)
| PanicReflect.       (* a panic raised inside package reflect *)

(** A call either returns a value or panics. *)
Inductive outcome (A : Type) : Type :=
| Return (a : A)
| Panics (why : panic).
Arguments Return {A} a.
Arguments Panics {A} why.

#[global] Instance outcome_ret : MRet outcome := @Return.
#[global] Instance outcome_bind : MBind outcome := λ A B f m,
  match m with
  | Return a => f a
  | Panics why => Panics why
  end.

Definition returns {A} (m : outcome A) : Prop := ∃ a, m = Return a.

(** ** Strings and runes

    A Go string is a sequence of bytes; Rocq's [string] is a sequence of
    8-bit [ascii], so a Go string is a [string].  The conversion
    [[]rune(s)] decodes UTF-8; it is modelled after the decoder of the Go
    runtime ([decoderune] and the [range] loop over a string), which the
    repository relies on but does not contain. *)
Module utf8.

Definition runeError : Z := 0xFFFD.
Definition runeSelf : Z := 0x80.
Definition maxRune : Z := 0x10FFFF.
Definition surrogateMin : Z := 0xD800.
Definition surrogateMax : Z := 0xDFFF.

Definition tx : Z := 0x80.
Definition t2 : Z := 0xC0.
Definition t3 : Z := 0xE0.
Definition t4 : Z := 0xF0.
Definition t5 : Z := 0xF8.

Definition maskx : Z := 0x3F.
Definition mask2 : Z := 0x1F.
Definition mask3 : Z := 0x0F.
Definition mask4 : Z := 0x07.

Definition rune1Max : Z := 0x7F.
Definition rune2Max : Z := 0x7FF.
Definition rune3Max : Z := 0xFFFF.

Definition locb : Z := 0x80.
Definition hicb : Z := 0xBF.

(** [locb <= b && b <= hicb]: [b] is a continuation byte. *)
Definition cont (b : Z) : bool := (locb <=? b) && (b <=? hicb).

(** [decoderune(s, k)] seen from position [k]: the rune that starts the
    byte sequence [s] and the number of bytes it takes.  An invalid or
    truncated sequence gives [runeError] and width 1. *)
Definition decoderune (s : list Z) : Z * nat :=
  match s with
  | s0 :: s1 :: tl =>
      if (t2 <=? s0) && (s0 <? t3) then
        if cont s1 then
          let r := Z.lor (Z.shiftl (Z.land s0 mask2) 6) (Z.land s1 maskx) in
          if rune1Max <? r then (r, 2%nat) else (runeError, 1%nat)
        else (runeError, 1%nat)
      else if (t3 <=? s0) && (s0 <? t4) then
        match tl with
        | s2 :: _ =>
            if cont s1 && cont s2 then
              let r := Z.lor (Z.lor (Z.shiftl (Z.land s0 mask3) 12)
                                    (Z.shiftl (Z.land s1 maskx) 6))
                             (Z.land s2 maskx) in
              if (rune2Max <? r)
                 && negb ((surrogateMin <=? r) && (r <=? surrogateMax))
              then (r, 3%nat) else (runeError, 1%nat)
            else (runeError, 1%nat)
        | [] => (runeError, 1%nat)
        end
      else if (t4 <=? s0) && (s0 <? t5) then
        match tl with
        | s2 :: s3 :: _ =>
            if cont s1 && cont s2 && cont s3 then
              let r := Z.lor (Z.lor (Z.lor (Z.shiftl (Z.land s0 mask4) 18)
                                           (Z.shiftl (Z.land s1 maskx) 12))
                                    (Z.shiftl (Z.land s2 maskx) 6))
                             (Z.land s3 maskx) in
              if (rune3Max <? r) && (r <=? maxRune)
              then (r, 4%nat) else (runeError, 1%nat)
            else (runeError, 1%nat)
        | _ => (runeError, 1%nat)
        end
      else (runeError, 1%nat)
  | _ => (runeError, 1%nat)
  end.

(** [for _, r := range s]: the runes of the byte sequence [s], in order.
    Every iteration consumes at least one byte, so [length s] iterations
    are enough; [fuel] bounds the number of iterations. *)
Fixpoint rangeRunes (fuel : nat) (s : list Z) : list Z :=
  match fuel, s with
  | S fuel', c :: tl =>
      if c <? runeSelf then c :: rangeRunes fuel' tl
      else let '(r, w) := decoderune s in r :: rangeRunes fuel' (drop w s)
  | _, _ => []
  end.

Definition bytes (s : string) : list Z :=
  (λ a, Z.of_N (N_of_ascii a)) <$> list_ascii_of_string s.

Definition of_bytes (l : list Z) : string :=
  string_of_list_ascii ((λ b, ascii_of_N (Z.to_N b)) <$> l).

(** [[]rune(s)] *)
Definition stringtoslicerune (s : string) : list Z :=
  rangeRunes (length (bytes s)) (bytes s).

(** [byte(x)]: conversion of an integer to a byte keeps the low 8 bits. *)
Definition byte (x : Z) : Z := Z.land x 0xFF.

(** [utf8.AppendRune]: the UTF-8 encoding of one rune. *)
Definition encoderune (r : Z) : list Z :=
  if r <=? rune1Max then [byte r]
  else if r <=? rune2Max then
    [Z.lor t2 (byte (Z.shiftr r 6)); Z.lor tx (Z.land (byte r) maskx)]
  else if r <=? rune3Max then
    [Z.lor t3 (byte (Z.shiftr r 12));
     Z.lor tx (Z.land (byte (Z.shiftr r 6)) maskx);
     Z.lor tx (Z.land (byte r) maskx)]
  else
    [Z.lor t4 (byte (Z.shiftr r 18));
     Z.lor tx (Z.land (byte (Z.shiftr r 12)) maskx);
     Z.lor tx (Z.land (byte (Z.shiftr r 6)) maskx);
     Z.lor tx (Z.land (byte r) maskx)].

(** [string(rs)] for a slice of runes [rs]. *)
Definition slicerunetostring (rs : list Z) : string :=
  of_bytes (rs ≫= encoderune).

(** A Unicode code point that UTF-8 can encode: a scalar value. *)
Definition valid_rune (r : Z) : Prop :=
  0 ≤ r ≤ maxRune ∧ ¬ (surrogateMin ≤ r ≤ surrogateMax).

End utf8.

(** ** Values seen through package reflect

    The engine receives records as [any] and walks them with [reflect].
    The model keeps what those calls read: the dynamic type of a string
    value, the fields of a struct value in declaration order, the list
    [reflect.VisibleFields] returns for a struct type, and the address of
    a pointer. *)
Module reflect.

(** [reflect.StructField], the fields the package reads.  Index entries
    come from [reflect] and are never negative. *)
Record StructField : Type := {
  Name : string;
  Offset : Z;        (* uintptr: offset within struct, in bytes *)
  Index : list nat;  (* index sequence for Type.FieldByIndex *)
  Anonymous : bool;  (* is an embedded field *)
}.

(** How a struct field was declared: with an exported name or not, and
    embedded or not. *)
Record decl : Set := { exported : bool; embedded : bool }.

(** A Go value of dynamic type:
    - [Nil]: the nil interface (and reflect's zero [Value]);
    - [Str T s]: a value [s] of the string type named [T];
    - [Int n]: an integer;
    - [Struct visible fs]: a struct whose type has the visible fields
      [visible] and whose fields hold [fs], in declaration order;
    - [Ptr addr elem]: a pointer with address [addr], nil when [elem] is
      [None]. *)
#[warnings="-register-all"]
Inductive any : Type :=
| Nil
| Str (T : string) (s : string)
| Int (n : Z)
| Struct (visible : list StructField) (fs : list (decl * any))
| Ptr (addr : Z) (elem : option any).

(** [reflect.Value]: a value and its read-only flags. *)
Record Value : Type := {
  val : any;
  flagStickyRO : bool;  (* obtained via an unexported, not embedded field *)
  flagEmbedRO : bool;   (* obtained via an unexported embedded field *)
}.

Definition ValueOf (v : any) : Value :=
  {| val := v; flagStickyRO := false; flagEmbedRO := false |}.

(** [v.Kind() == reflect.Pointer] *)
Definition isPointer (v : Value) : bool :=
  match val v with Ptr _ _ => true | _ => false end.

(** [v.Elem()]: the value a pointer points to; the zero Value for a nil
    pointer; a panic for the kinds of the model that are no pointer. *)
Definition Elem (v : Value) : outcome Value :=
  match val v with
  | Ptr _ (Some x) =>
      Return {| val := x; flagStickyRO := flagStickyRO v;
                flagEmbedRO := flagEmbedRO v |}
  | Ptr _ None =>
      Return {| val := Nil; flagStickyRO := flagStickyRO v;
                flagEmbedRO := flagEmbedRO v |}
  | _ => Panics PanicReflect
  end.

(** [v.Pointer()] for the kinds of the model: the address of a pointer.
    It panics for nil, an integer and a struct.  For a string it panics
    up to Go 1.22; since Go 1.23 it returns the address of the bytes of
    the string, which the model does not have: no property of this file
    is stated for a string in the place of a pointer. *)
Definition Pointer (v : Value) : outcome Z :=
  match val v with
  | Ptr addr _ => Return addr
  | _ => Panics PanicReflect
  end.

(** [v.Field(i)]: panics unless [v] is a struct with more than [i]
    fields.  The sticky flag is inherited; an unexported field sets the
    embed flag when it is embedded and the sticky flag when it is not. *)
Definition Field (v : Value) (i : nat) : outcome Value :=
  match val v with
  | Struct _ fs =>
      match fs !! i with
      | Some (d, x) =>
          Return {| val := x;
                    flagStickyRO :=
                      flagStickyRO v || (negb (exported d) && negb (embedded d));
                    flagEmbedRO := negb (exported d) && embedded d |}
      | None => Panics PanicReflect
      end
  | _ => Panics PanicReflect
  end.

(** The loop of [v.FieldByIndex(index)]; [first] tells the first
    iteration ([i == 0]) from the others, which step through a pointer to
    an embedded struct. *)
Fixpoint FieldByIndex_loop (first : bool) (v : Value) (index : list nat)
  : outcome Value :=
  match index with
  | [] => Return v
  | x :: index' =>
      v1 ← (if first then Return v
            else match val v with
                 | Ptr _ (Some (Struct _ _)) => Elem v
                 | Ptr _ _ => Panics PanicReflect
                 | _ => Return v
                 end);
      v2 ← Field v1 x;
      FieldByIndex_loop false v2 index'
  end.

(** [v.FieldByIndex(index)] *)
Definition FieldByIndex (v : Value) (index : list nat) : outcome Value :=
  match index with
  | [x] => Field v x
  | _ =>
      match val v with
      | Struct _ _ => FieldByIndex_loop true v index
      | _ => Panics PanicReflect
      end
  end.

(** [v.Interface()]: panics for a value obtained through an unexported
    field. *)
Definition Interface (v : Value) : outcome any :=
  if flagStickyRO v || flagEmbedRO v then Panics PanicReflect
  else Return (val v).

(** [reflect.VisibleFields(v.Elem().Type())] for a pointer [p] to a
    struct. *)
Definition VisibleFieldsOfElem (p : any) : outcome (list StructField) :=
  match p with
  | Ptr _ (Some (Struct visible _)) => Return visible
  | _ => Panics PanicReflect
  end.

End reflect.

Abbreviation any := reflect.any.

(** [v.(T)] for a string type [T]: the string held by [v] when the dynamic
    type of [v] is [T], a panic otherwise. *)
Definition assertString (T : string) (v : any) : outcome string :=
  match v with
  | reflect.Str T' s =>
      if decide (T' = T) then Return s else Panics PanicTypeAssertion
  | _ => Panics PanicTypeAssertion
  end.

(** [len([]rune(s))] as an int. *)
Definition runeCount (s : string) : Z :=
  Z.of_nat (length (utf8.stringtoslicerune s)).

(** The verb [%v] applied to an int: its decimal representation. *)
Definition fmt_int (n : Z) : string := NilZero.string_of_int (Z.to_int n).

Definition newline : string := String "010"%char EmptyString.

(** ** The length family: validators, violations, printers

    [MinLength], [MaxLength] and [Length] return pointers, and a
    violation keeps the pointer to the validator that produced it
    (field [rule]) to find its printer when it is rendered.  Validators
    therefore live in a heap, and a pointer is an address of the heap.

    A printer writes text to an [io.Writer]; it is modelled by the text
    it writes, as a function of the violation it is given.  The type
    argument [T] of a generic validator is kept as a field: the type
    assertion [v.(T)] compares it with the dynamic type of [v].  An [int]
    is a [Z]; thresholds are only compared, never computed with. *)

Definition loc : Set := positive.

Module MinLengthViolationError.
Record t : Set := mk { Value : string; Min : Z; rule : loc }.
End MinLengthViolationError.

Module MaxLengthViolationError.
Record t : Set := mk { Value : string; Max : Z; rule : loc }.
End MaxLengthViolationError.

Module LengthViolationError.
Record t : Set := mk { Value : string; Min : Z; Max : Z; rule : loc }.
End LengthViolationError.

Module RangeMinViolationError.
(** [Min, Max int // zero or negative values means unlimited] *)
Record t : Set := mk { Min : Z; Max : Z; Value : string }.
End RangeMinViolationError.

Module MinLengthValidator.
Record t : Set := mk {
  T : string;
  min : Z;
  p : option (MinLengthViolationError.t → string);  (* nil is None *)
}.
End MinLengthValidator.

Module MaxLengthValidator.
Record t : Set := mk {
  T : string;
  max : Z;
  p : option (MaxLengthViolationError.t → string);
}.
End MaxLengthValidator.

Module LengthValidator.
Record t : Set := mk {
  T : string;
  min : Z;
  max : Z;
  p : option (LengthViolationError.t → string);
}.
End LengthValidator.

(** What an address of the heap holds. *)
Inductive object : Set :=
| ObjMinLength (v : MinLengthValidator.t)
| ObjMaxLength (v : MaxLengthValidator.t)
| ObjLength (v : LengthValidator.t).

Abbreviation heap := (gmap loc object).

(** [&x] for a new variable [x] holding [o]: a new address. *)
Definition alloc (h : heap) (o : object) : loc * heap :=
  let l := fresh (dom h) in (l, <[l := o]> h).

(** [*r] for [r] of type [*MinLengthValidator[T]]; an address that holds
    no such validator stands for the nil pointer. *)
Definition loadMinLength (h : heap) (r : loc) : outcome MinLengthValidator.t :=
  match h !! r with
  | Some (ObjMinLength v) => Return v
  | _ => Panics PanicNilDeref
  end.

Definition loadMaxLength (h : heap) (r : loc) : outcome MaxLengthValidator.t :=
  match h !! r with
  | Some (ObjMaxLength v) => Return v
  | _ => Panics PanicNilDeref
  end.

Definition loadLength (h : heap) (r : loc) : outcome LengthValidator.t :=
  match h !! r with
  | Some (ObjLength v) => Return v
  | _ => Panics PanicNilDeref
  end.

(** Modelled from the spec: [printerFunc], the adapter that
    [WithPrinterFunc] applies to a function literal, is not among the
    source files.  The spec calls it "a convenience that wraps a
    formatting function into a full Printer": its [Print] method calls
    the function. *)
Definition printerFunc {E : Type} (fn : E → string) : E → string := fn.

(** [func MinLength[T ~string](n int) *MinLengthValidator[T]] *)
Definition MinLength (T : string) (n : Z) (h : heap) : loc * heap :=
  alloc h (ObjMinLength
             {| MinLengthValidator.T := T; MinLengthValidator.min := n;
                MinLengthValidator.p := None |}).

(** [func (r *MinLengthValidator[T]) WithPrinter(p)]:
    [rr := *r; rr.p = p; return &rr] *)
Definition MinLengthValidator_WithPrinter (h : heap) (r : loc)
    (p : MinLengthViolationError.t → string) : outcome (loc * heap) :=
  rr ← loadMinLength h r;
  let rr := {| MinLengthValidator.T := MinLengthValidator.T rr;
               MinLengthValidator.min := MinLengthValidator.min rr;
               MinLengthValidator.p := Some p |} in
  Return (alloc h (ObjMinLength rr)).

(** [func (r *MinLengthValidator[T]) WithPrinterFunc(fn func(w, min))] *)
Definition MinLengthValidator_WithPrinterFunc (h : heap) (r : loc)
    (fn : Z → string) : outcome (loc * heap) :=
  rr ← loadMinLength h r;
  let rr := {| MinLengthValidator.T := MinLengthValidator.T rr;
               MinLengthValidator.min := MinLengthValidator.min rr;
               MinLengthValidator.p :=
                 Some (printerFunc (λ e, fn (MinLengthViolationError.Min e))) |} in
  Return (alloc h (ObjMinLength rr)).

(** [func MaxLength[T ~string](n int) *MaxLengthValidator[T]] *)
Definition MaxLength (T : string) (n : Z) (h : heap) : loc * heap :=
  alloc h (ObjMaxLength
             {| MaxLengthValidator.T := T; MaxLengthValidator.max := n;
                MaxLengthValidator.p := None |}).

Definition MaxLengthValidator_WithPrinter (h : heap) (r : loc)
    (p : MaxLengthViolationError.t → string) : outcome (loc * heap) :=
  rr ← loadMaxLength h r;
  let rr := {| MaxLengthValidator.T := MaxLengthValidator.T rr;
               MaxLengthValidator.max := MaxLengthValidator.max rr;
               MaxLengthValidator.p := Some p |} in
  Return (alloc h (ObjMaxLength rr)).

Definition MaxLengthValidator_WithPrinterFunc (h : heap) (r : loc)
    (fn : Z → string) : outcome (loc * heap) :=
  rr ← loadMaxLength h r;
  let rr := {| MaxLengthValidator.T := MaxLengthValidator.T rr;
               MaxLengthValidator.max := MaxLengthValidator.max rr;
               MaxLengthValidator.p :=
                 Some (printerFunc (λ e, fn (MaxLengthViolationError.Max e))) |} in
  Return (alloc h (ObjMaxLength rr)).

(** [func Length[T ~string](min, max int) *LengthValidator[T]] *)
Definition Length (T : string) (min max : Z) (h : heap) : loc * heap :=
  alloc h (ObjLength
             {| LengthValidator.T := T; LengthValidator.min := min;
                LengthValidator.max := max; LengthValidator.p := None |}).

Definition LengthValidator_WithPrinter (h : heap) (r : loc)
    (p : LengthViolationError.t → string) : outcome (loc * heap) :=
  rr ← loadLength h r;
  let rr := {| LengthValidator.T := LengthValidator.T rr;
               LengthValidator.min := LengthValidator.min rr;
               LengthValidator.max := LengthValidator.max rr;
               LengthValidator.p := Some p |} in
  Return (alloc h (ObjLength rr)).

Definition LengthValidator_WithPrinterFunc (h : heap) (r : loc)
    (fn : Z → Z → string) : outcome (loc * heap) :=
  rr ← loadLength h r;
  let rr := {| LengthValidator.T := LengthValidator.T rr;
               LengthValidator.min := LengthValidator.min rr;
               LengthValidator.max := LengthValidator.max rr;
               LengthValidator.p :=
                 Some (printerFunc
                         (λ e, fn (LengthViolationError.Min e)
                                  (LengthViolationError.Max e))) |} in
  Return (alloc h (ObjLength rr)).

(** ** Errors *)

(** The error values of the package: the four violation errors, the
    error [fmt.Errorf] builds with [%w], the error [errors.Join] builds,
    and [errorString] for the error of any other validator, of which only
    the text matters. *)
#[warnings="-register-all"]
Inductive error : Set :=
| MinLengthViolation (e : MinLengthViolationError.t)
| MaxLengthViolation (e : MaxLengthViolationError.t)
| LengthViolation (e : LengthViolationError.t)
| RangeMinViolation (e : RangeMinViolationError.t)
| wrapError (msg : string) (err : error)
| joinError (errs : list error)
| errorString (msg : string).

(** The default printers. *)
Definition minLengthViolationPrinter_Print (e : MinLengthViolationError.t)
  : string :=
  "the length must be no less than " +:+ fmt_int (MinLengthViolationError.Min e).

Definition maxLengthViolationPrinter_Print (e : MaxLengthViolationError.t)
  : string :=
  "the length must be no greater than "
    +:+ fmt_int (MaxLengthViolationError.Max e).

Definition lengthViolationPrinter_Print (e : LengthViolationError.t) : string :=
  "the length must be in range(" +:+ fmt_int (LengthViolationError.Min e)
    +:+ " ... " +:+ fmt_int (LengthViolationError.Max e) +:+ ")".

Definition rangeMinPrinter_Print (e : RangeMinViolationError.t) : string :=
  "requires".

Definition notEmptyPrinter_Print (e : RangeMinViolationError.t) : string :=
  "requires".

(** [func (e MinLengthViolationError[T]) Error() string]:
    [p := e.rule.p; if p == nil { p = default }; p.Print(&w, &e)] *)
Definition MinLengthViolationError_Error (h : heap)
    (e : MinLengthViolationError.t) : outcome string :=
  rule ← loadMinLength h (MinLengthViolationError.rule e);
  let p := match MinLengthValidator.p rule with
           | Some p => p
           | None => minLengthViolationPrinter_Print
           end in
  Return (p e).

Definition MaxLengthViolationError_Error (h : heap)
    (e : MaxLengthViolationError.t) : outcome string :=
  rule ← loadMaxLength h (MaxLengthViolationError.rule e);
  let p := match MaxLengthValidator.p rule with
           | Some p => p
           | None => maxLengthViolationPrinter_Print
           end in
  Return (p e).

Definition LengthViolationError_Error (h : heap)
    (e : LengthViolationError.t) : outcome string :=
  rule ← loadLength h (LengthViolationError.rule e);
  let p := match LengthValidator.p rule with
           | Some p => p
           | None => lengthViolationPrinter_Print
           end in
  Return (p e).

(** [func (e *RangeMinViolationError[T]) Error() string] *)
Definition RangeMinViolationError_Error (e : RangeMinViolationError.t)
  : string :=
  rangeMinPrinter_Print e.

(** [err.Error()].  For [joinError] this is the loop of the standard
    library: the first text, then a newline and the text of every other
    member. *)
Fixpoint Error (h : heap) (err : error) : outcome string :=
  match err with
  | MinLengthViolation e => MinLengthViolationError_Error h e
  | MaxLengthViolation e => MaxLengthViolationError_Error h e
  | LengthViolation e => LengthViolationError_Error h e
  | RangeMinViolation e => Return (RangeMinViolationError_Error e)
  | wrapError msg _ => Return msg
  | joinError errs =>
      match errs with
      | [] => Panics PanicIndex
      | e0 :: rest =>
          b ← Error h e0;
          (fix loop (b : string) (rest : list error) : outcome string :=
             match rest with
             | [] => Return b
             | e1 :: rest' =>
                 s ← Error h e1; loop (b +:+ newline +:+ s) rest'
             end) b rest
      end
  | errorString msg => Return msg
  end.

(** The text of a run-time panic, as package fmt prints a recovered
    panic value.  [Error] raises the two run-time errors only; the other
    lines are not used. *)
Definition panic_text (why : panic) : string :=
  match why with
  | PanicXxx => "xxx"
  | PanicNilDeref =>
      "runtime error: invalid memory address or nil pointer dereference"
  | PanicIndex => "runtime error: index out of range [0] with length 0"
  | PanicTypeAssertion => "interface conversion"
  | PanicReflect => "reflect"
  end.

(** The verbs [%w] and [%v] applied to an error: the text of its [Error]
    method; package fmt recovers a panic of that method and prints it. *)
Definition fmt_error (h : heap) (err : error) : string :=
  match Error h err with
  | Return s => s
  | Panics why => "%!v(PANIC=Error method: " +:+ panic_text why +:+ ")"
  end.

(** [fmt.Errorf("'%s' %w", name, err)] *)
Definition fmt_Errorf (h : heap) (name : string) (err : error) : error :=
  wrapError ("'" +:+ name +:+ "' " +:+ fmt_error h err) err.

(** [errors.Join(errs...)]: nil members are dropped; nil when nothing is
    left. *)
Definition errors_Join (errs : list (option error)) : option error :=
  match omap id errs with
  | [] => None
  | es => Some (joinError es)
  end.

(** The violations an error stands for: the members of joined errors,
    joined errors among them opened in turn. *)
Fixpoint violations (err : error) : list error :=
  match err with
  | joinError errs => flat_map violations errs
  | _ => [err]
  end.

(** ** The Validator interface and its implementations *)

(** [type Validator interface { Validate(v any) error }]: a value of the
    interface is its method, closed over the receiver.  The method reads
    the heap (a validator of the length family reads its own fields
    through its pointer); a nil error is [None]. *)
Record Validator : Type := { Validate : heap → any → outcome (option error) }.

(** [func (r *MinLengthValidator[T]) Validate(v any) error] *)
Definition MinLengthValidator_Validate (h : heap) (r : loc) (v : any)
  : outcome (option error) :=
  rr ← loadMinLength h r;
  s ← assertString (MinLengthValidator.T rr) v;
  let a := utf8.stringtoslicerune s in
  if Z.of_nat (length a) <? MinLengthValidator.min rr then
    Return (Some (MinLengthViolation
                    {| MinLengthViolationError.Value := s;
                       MinLengthViolationError.Min := MinLengthValidator.min rr;
                       MinLengthViolationError.rule := r |}))
  else Return None.

(** [func (r *MaxLengthValidator[T]) Validate(v any) error] *)
Definition MaxLengthValidator_Validate (h : heap) (r : loc) (v : any)
  : outcome (option error) :=
  rr ← loadMaxLength h r;
  s ← assertString (MaxLengthValidator.T rr) v;
  let a := utf8.stringtoslicerune s in
  if Z.of_nat (length a) >? MaxLengthValidator.max rr then
    Return (Some (MaxLengthViolation
                    {| MaxLengthViolationError.Value := s;
                       MaxLengthViolationError.Max := MaxLengthValidator.max rr;
                       MaxLengthViolationError.rule := r |}))
  else Return None.

(** [func (r *LengthValidator[T]) Validate(v any) error] *)
Definition LengthValidator_Validate (h : heap) (r : loc) (v : any)
  : outcome (option error) :=
  rr ← loadLength h r;
  s ← assertString (LengthValidator.T rr) v;
  let a := utf8.stringtoslicerune s in
  if (Z.of_nat (length a) <? LengthValidator.min rr)
     || (Z.of_nat (length a) >? LengthValidator.max rr) then
    Return (Some (LengthViolation
                    {| LengthViolationError.Value := s;
                       LengthViolationError.Min := LengthValidator.min rr;
                       LengthViolationError.Max := LengthValidator.max rr;
                       LengthViolationError.rule := r |}))
  else Return None.

(** [func (f *notEmptyValidator[T]) Validate(v any) error].  The method
    does not read its receiver: the printer that [SetPrinter] stores in
    the field [p] is read neither here nor by [Error].  The field [Max]
    of the violation is left at its zero value. *)
Definition notEmptyValidator_Validate (T : string) (v : any)
  : outcome (option error) :=
  s ← assertString T v;
  if decide (s = "") then
    Return (Some (RangeMinViolation
                    {| RangeMinViolationError.Min := 1;
                       RangeMinViolationError.Max := 0;
                       RangeMinViolationError.Value := s |}))
  else Return None.

(** The pointers as values of the interface. *)
Definition MinLengthValidator_Validator (r : loc) : Validator :=
  {| Validate h v := MinLengthValidator_Validate h r v |}.

Definition MaxLengthValidator_Validator (r : loc) : Validator :=
  {| Validate h v := MaxLengthValidator_Validate h r v |}.

Definition LengthValidator_Validator (r : loc) : Validator :=
  {| Validate h v := LengthValidator_Validate h r v |}.

(** [var NotEmpty Validator = &notEmptyValidator[string]{}] *)
Definition NotEmpty : Validator :=
  {| Validate _ v := notEmptyValidator_Validate "string" v |}.

(** ** Rules and rule sets *)

Record rule : Type := {
  Name : string;
  Validators : list Validator;
  Offset : Z;        (* offset within struct, in bytes *)
  Index : list nat;  (* index sequence for reflect.Type.FieldByIndex *)
}.

(** The loop of [rule.Validate]; [errs] is the slice built so far. *)
Fixpoint rule_Validate_loop (h : heap) (name : string) (ps : list Validator)
    (v : any) (errs : list error) : outcome (list error) :=
  match ps with
  | [] => Return errs
  | p :: ps' =>
      res ← Validate p h v;
      match res with
      | Some err => rule_Validate_loop h name ps' v (errs ++ [fmt_Errorf h name err])
      | None => rule_Validate_loop h name ps' v errs
      end
  end.

(** [func (r *rule) Validate(v any) error] *)
Definition rule_Validate (h : heap) (r : rule) (v : any)
  : outcome (option error) :=
  errs ← rule_Validate_loop h (Name r) (Validators r) v [];
  Return (errors_Join (Some <$> errs)).

(** [rules] is [None] for the nil map. *)
Record RuleSet : Type := {
  base : any;
  rules : option (gmap string rule);
}.

Definition uintptr (x : Z) : Z := x mod 2 ^ 64.

(** [func (s *RuleSet) offsetOf(p any) uintptr] *)
Definition RuleSet_offsetOf (s : RuleSet) (p : any) : outcome Z :=
  bp ← reflect.Pointer (reflect.ValueOf (base s));
  pp ← reflect.Pointer (reflect.ValueOf p);
  Return (uintptr (pp - bp)).

(** The loop of [lookupStructField] and the panic after it. *)
Fixpoint lookupStructField_loop (fields : list reflect.StructField) (off : Z)
  : outcome reflect.StructField :=
  match fields with
  | [] => Panics PanicXxx
  | f :: fields' =>
      if decide (reflect.Offset f = off) then Return f
      else lookupStructField_loop fields' off
  end.

(** [func lookupStructField(p any, off uintptr) reflect.StructField] *)
Definition lookupStructField (p : any) (off : Z) : outcome reflect.StructField :=
  fields ← reflect.VisibleFieldsOfElem p;
  lookupStructField_loop fields off.

(** [func (s *RuleSet) Add(p any, name string, vs ...Validator)]; the
    rule set after the call. *)
Definition RuleSet_Add (s : RuleSet) (p : any) (name : string)
    (vs : list Validator) : outcome RuleSet :=
  off ← RuleSet_offsetOf s p;
  f ← lookupStructField (base s) off;
  let m := match rules s with
           | None => ∅
           | Some m => m
           end in
  Return {| base := base s;
            rules := Some (<[name := {| Name := name;
                                        Validators := vs;
                                        Offset := reflect.Offset f;
                                        Index := reflect.Index f |}]> m) |}.

(** The entries of the map [s.rules]; a nil map has none. *)
Definition entries (s : RuleSet) : list (string * rule) :=
  match rules s with
  | None => []
  | Some m => map_to_list m
  end.


(** The value [rule.Validate] is called with:
    [p.FieldByIndex(rule.Index).Interface()]. *)
Definition fieldOf (p : reflect.Value) (r : rule) : outcome any :=
  f ← reflect.FieldByIndex p (Index r);
  reflect.Interface f.

(** The loop of [RuleSet.Validate] over the entries in the order
    [order]. *)
Fixpoint RuleSet_Validate_loop (h : heap) (p : reflect.Value)
    (order : list (string * rule)) (errs : list error)
  : outcome (list error) :=
  match order with
  | [] => Return errs
  | (_, r) :: order' =>
      x ← fieldOf p r;
      res ← rule_Validate h r x;
      match res with
      | Some err => RuleSet_Validate_loop h p order' (errs ++ [err])
      | None => RuleSet_Validate_loop h p order' errs
      end
  end.

(** [func (s *RuleSet) Validate(v any) error], when the [range] loop
    visits the entries of [s.rules] in the order [order]. *)
Definition RuleSet_Validate (h : heap) (order : list (string * rule))
    (v : any) : outcome (option error) :=
  let p := reflect.ValueOf v in
  p ← (if reflect.isPointer p then reflect.Elem p else Return p);
  errs ← RuleSet_Validate_loop h p order [];
  Return (errors_Join (Some <$> errs)).

(** A rule set as a value of the interface; [order] gives, for the rule
    set, the order of its [range] loop. *)
Definition RuleSet_Validator (order : list (string * rule)) : Validator :=
  {| Validate h v := RuleSet_Validate h order v |}.

(** [func Struct[T any](build func(s *RuleSet, v *T)) Validator]: [zero]
    is the zero value of [T], [addr] the address of the variable [v], and
    [build] returns the rule set it leaves behind. *)
Definition Struct (zero : any) (addr : Z)
    (build : RuleSet → any → outcome RuleSet) : outcome RuleSet :=
  let v := reflect.Ptr addr (Some zero) in
  build {| base := v; rules := None |} v.

(** ** Notions used to state the properties *)

(** The violations of a result: none for the nil error. *)
Definition violations_of (res : option error) : list error :=
  match res with
  | None => []
  | Some err => violations err
  end.

(** The value [RuleSet.Validate] looks fields up in: the record itself,
    or what the pointer it is given points to. *)
Definition indirect (v : any) : reflect.Value :=
  match v with
  | reflect.Ptr _ (Some x) => reflect.ValueOf x
  | reflect.Ptr _ None => reflect.ValueOf reflect.Nil
  | _ => reflect.ValueOf v
  end.

(** The error a validator returns for a value, if it returns one. *)
Definition failure (h : heap) (v : any) (p : Validator) : option error :=
  match Validate p h v with
  | Return res => res
  | Panics _ => None
  end.

(** One wrapped error for every validator of the rule that fails on [v],
    in the order of the validators. *)
Definition rule_failures (h : heap) (r : rule) (v : any) : list error :=
  omap (λ p, fmt_Errorf h (Name r) <$> failure h v p) (Validators r).

(** One wrapped error for every pair of a rule of [order] and a validator
    of that rule that fails on the rule's field of [p]. *)
Definition all_failures (h : heap) (p : reflect.Value)
    (order : list (string * rule)) : list error :=
  order ≫= λ nr,
    match fieldOf p nr.2 with
    | Return x => rule_failures h nr.2 x
    | Panics _ => []
    end.

(** What copy-on-configure asks of a call that returns a configured
    validator: the call returns a pointer to a new validator [o'], every
    validator that existed before is left as it was, and every error
    renders as it rendered before. *)
Definition copy_on_configure (h : heap) (res : outcome (loc * heap))
    (o' : object) : Prop :=
  ∃ r' h',
    res = Return (r', h')
    ∧ h !! r' = None
    ∧ h' !! r' = Some o'
    ∧ (∀ l o, h !! l = Some o → h' !! l = Some o)
    ∧ (∀ err s, Error h err = Return s → Error h' err = Return s).

(** The record satisfies the rules [rs]: every rule finds its field, and
    every validator of the rule returns nil on it. *)
Definition satisfied (h : heap) (p : reflect.Value)
    (rs : list (string * rule)) : Prop :=
  ∀ n r, (n, r) ∈ rs →
    ∃ x, fieldOf p r = Return x
         ∧ ∀ q, q ∈ Validators r → Validate q h x = Return None.

(** A string of three characters of three bytes each (U+3042, U+3044,
    U+3046), as a test of the package writes it. *)
Definition aiu : string := "あいう".

(** The heap after [MinLength(3)], [MaxLength(2)] and [Length(2,4)], which
    are at the addresses 1, 2 and 3. *)
Definition example_heap : heap :=
  (Length "string" 2 4
     (MaxLength "string" 2 (MinLength "string" 3 ∅).2).2).2.

(** The violations of a validator that a call returns render through the
    printer [p]. *)
Definition renders_with {E : Type} (inj : E → error) (rule_of : E → loc)
    (res : outcome (loc * heap)) (p : E → string) : Prop :=
  ∃ r' h',
    res = Return (r', h')
    ∧ ∀ e, rule_of e = r' → Error h' (inj e) = Return (p e).

(** What [rule.Validate] returns for the field of [p] that the rule is
    bound to, when the field can be read and every validator returns. *)
Definition rule_result (h : heap) (p : reflect.Value) (nr : string * rule)
  : option error :=
  match fieldOf p nr.2 with
  | Return x => errors_Join (Some <$> rule_failures h nr.2 x)
  | Panics _ => None
  end.

(** The record is of the type the rule set was built for and holds
    values of the types the validators expect: every rule finds its
    field, and every validator of the rule returns on it. *)
Definition well_typed (h : heap) (p : reflect.Value)
    (rs : list (string * rule)) : Prop :=
  ∀ n r, (n, r) ∈ rs →
    ∃ x, fieldOf p r = Return x
         ∧ ∀ q, q ∈ Validators r → returns (Validate q h x).

(** A record type with two string fields, as [reflect.VisibleFields]
    describes it on a 64-bit machine, and its values:
    [type article struct { Title string; Body string }]. *)
Definition article_fields : list reflect.StructField :=
  [ {| reflect.Name := "Title"; reflect.Offset := 0; reflect.Index := [0%nat];
       reflect.Anonymous := false |};
    {| reflect.Name := "Body"; reflect.Offset := 16; reflect.Index := [1%nat];
       reflect.Anonymous := false |} ].

Definition article (title body : string) : any :=
  reflect.Struct article_fields
    [ ({| reflect.exported := true; reflect.embedded := false |},
       reflect.Str "string" title);
      ({| reflect.exported := true; reflect.embedded := false |},
       reflect.Str "string" body) ].

(** A rule set for articles, built as a caller builds it: two rules on
    the field [Title] and one on the field [Body]; [MinLength(3)] is the
    validator at address 1 of [example_heap]. *)
Definition example_registry : outcome RuleSet :=
  Struct (article "" "") 0xc000012000 (λ s v,
    s ← RuleSet_Add s (reflect.Ptr 0xc000012000 (Some (reflect.Str "string" "")))
          "title" [NotEmpty];
    s ← RuleSet_Add s (reflect.Ptr 0xc000012000 (Some (reflect.Str "string" "")))
          "title-size" [MinLengthValidator_Validator 1%positive];
    RuleSet_Add s (reflect.Ptr 0xc000012010 (Some (reflect.Str "string" "")))
      "body" [NotEmpty]).

Definition example_rules : RuleSet :=
  match example_registry with
  | Return s => s
  | Panics _ => {| base := reflect.Nil; rules := None |}
  end.

(** The three rules of [example_rules], and one of the orders in which a
    [range] loop may visit them. *)
Definition rule_body : rule :=
  {| Name := "body"; Validators := [NotEmpty]; Offset := 16;
     Index := [1%nat] |}.

Definition rule_title_size : rule :=
  {| Name := "title-size";
     Validators := [MinLengthValidator_Validator 1%positive];
     Offset := 0; Index := [0%nat] |}.

Definition rule_title : rule :=
  {| Name := "title"; Validators := [NotEmpty]; Offset := 0;
     Index := [0%nat] |}.

Definition example_order : list (string * rule) :=
  [("body", rule_body); ("title-size", rule_title_size);
   ("title", rule_title)].

(** A record type with an embedded struct,
    [type inner struct { A string }; type outer struct { inner }]:
    [reflect.VisibleFields] lists the embedded field and then the field
    promoted from it, each with the offset within its own struct. *)
Definition outer_fields : list reflect.StructField :=
  [ {| reflect.Name := "inner"; reflect.Offset := 0; reflect.Index := [0%nat];
       reflect.Anonymous := true |};
    {| reflect.Name := "A"; reflect.Offset := 0;
       reflect.Index := [0%nat; 0%nat]; reflect.Anonymous := false |} ].

(** ** Notions used to state further properties *)

(** [s.rules[name]]: reading a nil map finds nothing. *)
Definition lookup_rule (s : RuleSet) (name : string) : option rule :=
  default ∅ (rules s) !! name.

(** Two validators accept the same values and panic on the same values. *)
Definition same_acceptance (f g : any → outcome (option error)) : Prop :=
  ∀ v, (f v = Return None ↔ g v = Return None)
       ∧ (returns (f v) ↔ returns (g v)).

(** The texts of the errors of [rule_failures]: for every validator of
    the rule that fails on [v], the quoted name of the rule, a space and
    the text of the validator's error. *)
Definition rule_texts (h : heap) (r : rule) (v : any) : list string :=
  omap (λ p, (λ err, "'" +:+ Name r +:+ "' " +:+ fmt_error h err)
               <$> failure h v p) (Validators r).

(** The texts of the errors of [all_failures]. *)
Definition all_texts (h : heap) (p : reflect.Value)
    (order : list (string * rule)) : list string :=
  order ≫= λ nr,
    match fieldOf p nr.2 with
    | Return x => rule_texts h nr.2 x
    | Panics _ => []
    end.

(** A value of the article type whose second field is not exported, as
    for [type note struct { Title string; body string }]. *)
Definition note (title body : string) : any :=
  reflect.Struct article_fields
    [ ({| reflect.exported := true; reflect.embedded := false |},
       reflect.Str "string" title);
      ({| reflect.exported := false; reflect.embedded := false |},
       reflect.Str "string" body) ].

(** A call that configures the validator at [r] returns a validator that
    accepts what the receiver accepts, and the receiver validates as
    before. *)
Definition configured_accepts_same
    (validate : heap → loc → any → outcome (option error))
    (h : heap) (r : loc) (res : outcome (loc * heap)) : Prop :=
  ∃ r' h',
    res = Return (r', h')
    ∧ same_acceptance (validate h' r') (validate h r)
    ∧ ∀ v, validate h' r v = validate h r v.

(** A rule set for records that hold an article in their only field, as
    for [type post struct { Article article }]: one rule, whose
    validator is the rule set for articles. *)
Definition post (a : any) : any :=
  reflect.Struct
    [ {| reflect.Name := "Article"; reflect.Offset := 0;
         reflect.Index := [0%nat]; reflect.Anonymous := false |} ]
    [ ({| reflect.exported := true; reflect.embedded := false |}, a) ].

Definition rule_article : rule :=
  {| Name := "article"; Validators := [RuleSet_Validator example_order];
     Offset := 0; Index := [0%nat] |}.

(** ** Struct types, their layout and their visible fields

    The list [reflect.VisibleFields] returns and the addresses of the
    fields of a template follow from the struct type.  Types are modelled
    as far as records of strings need them: string types, [int], pointers
    and structs.  Sizes and offsets are those of the gc compiler on a
    64-bit machine.  A type of the model is a finite tree, so that the
    walk over embedded structs needs no set of types being visited. *)

(** A struct type lists its fields: for each the name (for an embedded
    field, the name of its type), whether it is embedded, and the
    type. *)
#[warnings="-register-all"]
Inductive rtype : Type :=
| TString (name : string)
| TInt
| TPtr (elem : rtype)
| TStruct (fields : list (string * bool * rtype)).

(** [off] rounded up to a multiple of [align]. *)
Definition roundup (off align : Z) : Z := (off + align - 1) / align * align.

(** The offsets of fields of the given sizes and alignments, laid out in
    order from [off], and the offset after the last field. *)
Fixpoint place (off : Z) (sas : list (Z * Z)) : list Z * Z :=
  match sas with
  | [] => ([], off)
  | (size, align) :: sas' =>
      let o := roundup off align in
      let '(offs, last) := place (o + size) sas' in
      (o :: offs, last)
  end.

(** Size and alignment of a type.  A struct is aligned as its most
    aligned field; a struct that is not empty and ends in a field of size
    zero gets one more byte before its size is rounded up. *)
Fixpoint sizealign (t : rtype) : Z * Z :=
  match t with
  | TString _ => (16, 8)
  | TInt => (8, 8)
  | TPtr _ => (8, 8)
  | TStruct fields =>
      let sas := map (λ f : string * bool * rtype, sizealign f.2) fields in
      let last := (place 0 sas).2 in
      let align := foldr (λ sa a, Z.max sa.2 a) 1 sas in
      let last := match reverse sas with
                  | (0, _) :: _ => if 0 <? last then last + 1 else last
                  | _ => last
                  end in
      (roundup last align, align)
  end.

(** The offset of every field of a struct within the struct. *)
Definition fieldOffsets (fields : list (string * bool * rtype)) : list Z :=
  (place 0 (map (λ f : string * bool * rtype, sizealign f.2) fields)).1.

(** A name is exported when it starts with an upper-case letter (of
    ASCII, in the model). *)
Definition IsExported (name : string) : bool :=
  match name with
  | String c _ => (65 <=? nat_of_ascii c)%nat && (nat_of_ascii c <=? 90)%nat
  | EmptyString => false
  end.

(** The state of the walk of [reflect.VisibleFields]: the fields found so
    far, a hidden one having the empty name, and for every name the
    position of the field that was last added under it. *)
Record visibleFieldsWalker : Type := {
  wfields : list reflect.StructField;
  byName : gmap string nat;
}.

(** [old.Name = ""] *)
Definition hide (f : reflect.StructField) : reflect.StructField :=
  {| reflect.Name := ""; reflect.Offset := reflect.Offset f;
     reflect.Index := reflect.Index f;
     reflect.Anonymous := reflect.Anonymous f |}.

(** One field [f] met by the walk: fields of the same name at the same
    depth cancel one another, otherwise the shallower one wins. *)
Definition visit (w : visibleFieldsWalker) (f : reflect.StructField)
  : visibleFieldsWalker :=
  let old :=
    byName w !! reflect.Name f ≫= λ i, (λ o, (i, o)) <$> wfields w !! i in
  let '(fields, add) :=
    match old with
    | Some (i, o) =>
        if decide (length (reflect.Index f) = length (reflect.Index o))
        then (<[i := hide o]> (wfields w), false)
        else if decide (length (reflect.Index f) < length (reflect.Index o))%nat
             then (<[i := hide o]> (wfields w), true)
             else (wfields w, false)
    | None => (wfields w, true)
    end in
  if add
  then {| wfields := fields ++ [f];
          byName := <[reflect.Name f := length fields]> (byName w) |}
  else {| wfields := fields; byName := byName w |}.

(** [w.walk(t)] with [w.index = index]: the fields of [t] in order, each
    followed by the fields of the struct it embeds, directly or through a
    pointer.  The [Offset] of a field is [t.Field(i).Offset], its offset
    within the struct [t] that declares it. *)
Fixpoint walk (t : rtype) (index : list nat) (w : visibleFieldsWalker)
  : visibleFieldsWalker :=
  match t with
  | TStruct fields =>
      (fix loop (fs : list (string * bool * rtype)) (offs : list Z) (i : nat)
           (w : visibleFieldsWalker) : visibleFieldsWalker :=
         match fs, offs with
         | (name, anonymous, ft) :: fs', off :: offs' =>
             let w := visit w {| reflect.Name := name; reflect.Offset := off;
                                 reflect.Index := index ++ [i];
                                 reflect.Anonymous := anonymous |} in
             let w := if anonymous
                      then match ft with
                           | TPtr (TStruct _ as et) => walk et (index ++ [i]) w
                           | TStruct _ => walk ft (index ++ [i]) w
                           | _ => w
                           end
                      else w in
             loop fs' offs' (S i) w
         | _, _ => w
         end) fields (fieldOffsets fields) 0%nat w
  | _ => w
  end.

(** [reflect.VisibleFields(t)]: the fields of the walk that are not
    hidden; a panic for a type that is no struct. *)
Definition VisibleFields (t : rtype) : outcome (list reflect.StructField) :=
  match t with
  | TStruct _ =>
      Return (filter (λ f, reflect.Name f ≠ "")
                (wfields (walk t [] {| wfields := []; byName := ∅ |})))
  | _ => Panics PanicReflect
  end.

(** The offset, from the start of a variable of type [t], of the field
    that the selectors [path] reach ([v.f.g]), when each of them selects
    a field of a struct held in place. *)
Fixpoint fieldOffset (t : rtype) (path : list nat) : option Z :=
  match path with
  | [] => Some 0
  | i :: path' =>
      match t with
      | TStruct fields =>
          match fields !! i, fieldOffsets fields !! i with
          | Some (_, _, ft), Some off => (λ o, off + o) <$> fieldOffset ft path'
          | _, _ => None
          end
      | _ => None
      end
  end.

(** [type name struct { First, Middle, Last string }] and
    [type person struct { ID string; name }], which embeds it. *)
Definition name_type : rtype :=
  TStruct [("First", false, TString "string");
           ("Middle", false, TString "string");
           ("Last", false, TString "string")].

Definition person_type : rtype :=
  TStruct [("ID", false, TString "string"); ("name", true, name_type)].

(** The visible fields of [person], as [VisibleFields person_type] gives
    them. *)
Definition person_fields : list reflect.StructField :=
  [ {| reflect.Name := "ID"; reflect.Offset := 0; reflect.Index := [0%nat];
       reflect.Anonymous := false |};
    {| reflect.Name := "name"; reflect.Offset := 16; reflect.Index := [1%nat];
       reflect.Anonymous := true |};
    {| reflect.Name := "First"; reflect.Offset := 0;
       reflect.Index := [1%nat; 0%nat]; reflect.Anonymous := false |};
    {| reflect.Name := "Middle"; reflect.Offset := 16;
       reflect.Index := [1%nat; 1%nat]; reflect.Anonymous := false |};
    {| reflect.Name := "Last"; reflect.Offset := 32;
       reflect.Index := [1%nat; 2%nat]; reflect.Anonymous := false |} ].

Definition name_fields : list reflect.StructField :=
  [ {| reflect.Name := "First"; reflect.Offset := 0; reflect.Index := [0%nat];
       reflect.Anonymous := false |};
    {| reflect.Name := "Middle"; reflect.Offset := 16;
       reflect.Index := [1%nat]; reflect.Anonymous := false |};
    {| reflect.Name := "Last"; reflect.Offset := 32; reflect.Index := [2%nat];
       reflect.Anonymous := false |} ].

(** A value of type [person]. *)
Definition person (id first middle last : string) : any :=
  reflect.Struct person_fields
    [ ({| reflect.exported := IsExported "ID"; reflect.embedded := false |},
       reflect.Str "string" id);
      ({| reflect.exported := IsExported "name"; reflect.embedded := true |},
       reflect.Struct name_fields
         [ ({| reflect.exported := IsExported "First";
               reflect.embedded := false |}, reflect.Str "string" first);
           ({| reflect.exported := IsExported "Middle";
               reflect.embedded := false |}, reflect.Str "string" middle);
           ({| reflect.exported := IsExported "Last";
               reflect.embedded := false |}, reflect.Str "string" last) ]) ].

(** The rule that [Add] stores when it is given the address of the field
    [Middle] of a [person] template and the validator [NotEmpty]: its
    index path is that of the field [Last]. *)
Definition rule_middle : rule :=
  {| Name := "middle"; Validators := [NotEmpty]; Offset := 32;
     Index := [1%nat; 2%nat] |}.

(** * Properties *)

(** ** Bit operations as arithmetic *)

Lemma lor_disjoint a b k :
  0 ≤ k → 0 ≤ b < 2 ^ k → a mod 2 ^ k = 0 → Z.lor a b = a + b.
Proof.
  intros Hk Hb Ha.
  assert (Hland : Z.land a b = 0).
  { apply Z.bits_inj'. intros n Hn. rewrite Z.land_spec, Z.bits_0.
    destruct (Z.lt_ge_cases n k) as [Hlt | Hge].
    - rewrite <- (Z.mod_pow2_bits_low a k n) by lia.
      rewrite Ha, Z.bits_0. reflexivity.
    - destruct (Z.eq_dec b 0) as [-> | Hb0].
      + rewrite Z.bits_0. apply andb_false_r.
      + rewrite (Z.bits_above_log2 b n); [apply andb_false_r | lia |].
        apply Z.lt_le_trans with k; [| assumption].
        apply Z.log2_lt_pow2; lia. }
  rewrite Z.add_nocarry_lxor by assumption.
  symmetry. apply Z.lxor_lor. assumption.
Qed.

Lemma land_mask a k : 0 ≤ k → Z.land a (2 ^ k - 1) = a mod 2 ^ k.
Proof.
  intros Hk. rewrite <- Z.land_ones by assumption.
  rewrite Z.ones_equiv. reflexivity.
Qed.

(** Turns shifts and masks by constants into division and remainder. *)
Ltac bits_to_arith :=
  unfold utf8.byte, utf8.maskx, utf8.mask2, utf8.mask3, utf8.mask4;
  change 0xFF with (2 ^ 8 - 1); change 0x3F with (2 ^ 6 - 1);
  change 0x1F with (2 ^ 5 - 1); change 0x0F with (2 ^ 4 - 1);
  change 0x07 with (2 ^ 3 - 1);
  rewrite ?land_mask by lia;
  rewrite ?Z.shiftr_div_pow2, ?Z.shiftl_mul_pow2 by lia;
  change (2 ^ 3) with 8; change (2 ^ 4) with 16; change (2 ^ 5) with 32;
  change (2 ^ 6) with 64; change (2 ^ 8) with 256;
  change (2 ^ 12) with 4096; change (2 ^ 18) with 262144.

Ltac div_mod_lia := Z.to_euclidean_division_equations; lia.

(** Equality of two lists of the same length, element by element. *)
Ltac list_eq :=
  repeat (apply (f_equal2 cons); [div_mod_lia |]); reflexivity.

(** ** UTF-8: decoding the encoding of a code point gives it back *)

Lemma encoderune_1 r : 0 ≤ r ≤ 0x7F → utf8.encoderune r = [r].
Proof.
  intros Hr. unfold utf8.encoderune, utf8.rune1Max.
  rewrite (proj2 (Z.leb_le _ _)) by lia.
  bits_to_arith. list_eq.
Qed.

Lemma encoderune_2 r :
  0x80 ≤ r ≤ 0x7FF → utf8.encoderune r = [192 + r / 64; 128 + r mod 64].
Proof.
  intros Hr.
  unfold utf8.encoderune, utf8.rune1Max, utf8.rune2Max, utf8.t2, utf8.tx.
  rewrite (proj2 (Z.leb_gt _ _)) by lia.
  rewrite (proj2 (Z.leb_le _ _)) by lia.
  bits_to_arith.
  rewrite (lor_disjoint 192 _ 6), (lor_disjoint 128 _ 7);
    change (2 ^ 6) with 64; change (2 ^ 7) with 128; try div_mod_lia.
  list_eq.
Qed.

Lemma encoderune_3 r :
  0x800 ≤ r ≤ 0xFFFF →
  utf8.encoderune r =
    [224 + r / 4096; 128 + (r / 64) mod 64; 128 + r mod 64].
Proof.
  intros Hr.
  unfold utf8.encoderune, utf8.rune1Max, utf8.rune2Max, utf8.rune3Max,
    utf8.t3, utf8.tx.
  rewrite !(proj2 (Z.leb_gt _ _)) by lia.
  rewrite (proj2 (Z.leb_le _ _)) by lia.
  bits_to_arith.
  rewrite (lor_disjoint 224 _ 5), !(lor_disjoint 128 _ 7);
    change (2 ^ 5) with 32; change (2 ^ 7) with 128; try div_mod_lia.
  list_eq.
Qed.

Lemma encoderune_4 r :
  0x10000 ≤ r ≤ 0x10FFFF →
  utf8.encoderune r =
    [240 + r / 262144; 128 + (r / 4096) mod 64; 128 + (r / 64) mod 64;
     128 + r mod 64].
Proof.
  intros Hr.
  unfold utf8.encoderune, utf8.rune1Max, utf8.rune2Max, utf8.rune3Max,
    utf8.t4, utf8.tx.
  rewrite !(proj2 (Z.leb_gt _ _)) by lia.
  bits_to_arith.
  rewrite (lor_disjoint 240 _ 4), !(lor_disjoint 128 _ 7);
    change (2 ^ 4) with 16; change (2 ^ 7) with 128; try div_mod_lia.
  list_eq.
Qed.

Lemma decode_value_2 r :
  0x80 ≤ r ≤ 0x7FF →
  Z.lor (Z.shiftl (Z.land (192 + r / 64) utf8.mask2) 6)
        (Z.land (128 + r mod 64) utf8.maskx) = r.
Proof.
  intros Hr. bits_to_arith.
  rewrite (lor_disjoint (_ * 64) _ 6); change (2 ^ 6) with 64; div_mod_lia.
Qed.

Lemma decode_value_3 r :
  0x800 ≤ r ≤ 0xFFFF →
  Z.lor (Z.lor (Z.shiftl (Z.land (224 + r / 4096) utf8.mask3) 12)
               (Z.shiftl (Z.land (128 + (r / 64) mod 64) utf8.maskx) 6))
        (Z.land (128 + r mod 64) utf8.maskx) = r.
Proof.
  intros Hr. bits_to_arith.
  rewrite (lor_disjoint (_ * 4096) (_ * 64) 12);
    change (2 ^ 12) with 4096; try div_mod_lia.
  rewrite (lor_disjoint _ _ 6); change (2 ^ 6) with 64; div_mod_lia.
Qed.

Lemma decode_value_4 r :
  0x10000 ≤ r ≤ 0x10FFFF →
  Z.lor (Z.lor (Z.lor (Z.shiftl (Z.land (240 + r / 262144) utf8.mask4) 18)
                      (Z.shiftl (Z.land (128 + (r / 4096) mod 64) utf8.maskx) 12))
               (Z.shiftl (Z.land (128 + (r / 64) mod 64) utf8.maskx) 6))
        (Z.land (128 + r mod 64) utf8.maskx) = r.
Proof.
  intros Hr. bits_to_arith.
  rewrite (lor_disjoint (_ * 262144) (_ * 4096) 18);
    change (2 ^ 18) with 262144; try div_mod_lia.
  rewrite (lor_disjoint _ (_ * 64) 12);
    change (2 ^ 12) with 4096; try div_mod_lia.
  rewrite (lor_disjoint _ _ 6); change (2 ^ 6) with 64; div_mod_lia.
Qed.

(** One iteration of the [range] loop consumes exactly the bytes of an
    encoded code point and yields that code point. *)
Lemma rangeRunes_encoderune r fuel rest :
  utf8.valid_rune r →
  utf8.rangeRunes (S fuel) (utf8.encoderune r ++ rest)
  = r :: utf8.rangeRunes fuel rest.
Proof.
  unfold utf8.valid_rune, utf8.maxRune, utf8.surrogateMin, utf8.surrogateMax.
  intros [Hr Hs].
  destruct (Z.le_gt_cases r 0x7F) as [H1 | H1];
    [| destruct (Z.le_gt_cases r 0x7FF) as [H2 | H2];
       [| destruct (Z.le_gt_cases r 0xFFFF) as [H3 | H3]]].
  - rewrite encoderune_1 by lia. cbn [app utf8.rangeRunes].
    replace (r <? utf8.runeSelf) with true
      by (unfold utf8.runeSelf; lia).
    reflexivity.
  - rewrite encoderune_2 by lia. cbn [app utf8.rangeRunes].
    replace (192 + r / 64 <? utf8.runeSelf) with false
      by (unfold utf8.runeSelf; div_mod_lia).
    unfold utf8.decoderune.
    replace ((utf8.t2 <=? 192 + r / 64) && (192 + r / 64 <? utf8.t3))
      with true by (unfold utf8.t2, utf8.t3; div_mod_lia).
    replace (utf8.cont (128 + r mod 64)) with true
      by (unfold utf8.cont, utf8.locb, utf8.hicb; div_mod_lia).
    cbv zeta. rewrite decode_value_2 by lia.
    replace (utf8.rune1Max <? r) with true by (unfold utf8.rune1Max; lia).
    reflexivity.
  - rewrite encoderune_3 by lia. cbn [app utf8.rangeRunes].
    replace (224 + r / 4096 <? utf8.runeSelf) with false
      by (unfold utf8.runeSelf; div_mod_lia).
    unfold utf8.decoderune.
    replace ((utf8.t2 <=? 224 + r / 4096) && (224 + r / 4096 <? utf8.t3))
      with false by (unfold utf8.t2, utf8.t3; div_mod_lia).
    replace ((utf8.t3 <=? 224 + r / 4096) && (224 + r / 4096 <? utf8.t4))
      with true by (unfold utf8.t3, utf8.t4; div_mod_lia).
    replace (utf8.cont (128 + (r / 64) mod 64)) with true
      by (unfold utf8.cont, utf8.locb, utf8.hicb; div_mod_lia).
    replace (utf8.cont (128 + r mod 64)) with true
      by (unfold utf8.cont, utf8.locb, utf8.hicb; div_mod_lia).
    cbv zeta. cbn [andb]. rewrite decode_value_3 by lia.
    replace ((utf8.rune2Max <? r)
             && negb ((utf8.surrogateMin <=? r) && (r <=? utf8.surrogateMax)))
      with true
      by (unfold utf8.rune2Max, utf8.surrogateMin, utf8.surrogateMax; lia).
    reflexivity.
  - rewrite encoderune_4 by lia. cbn [app utf8.rangeRunes].
    replace (240 + r / 262144 <? utf8.runeSelf) with false
      by (unfold utf8.runeSelf; div_mod_lia).
    unfold utf8.decoderune.
    replace ((utf8.t2 <=? 240 + r / 262144) && (240 + r / 262144 <? utf8.t3))
      with false by (unfold utf8.t2, utf8.t3; div_mod_lia).
    replace ((utf8.t3 <=? 240 + r / 262144) && (240 + r / 262144 <? utf8.t4))
      with false by (unfold utf8.t3, utf8.t4; div_mod_lia).
    replace ((utf8.t4 <=? 240 + r / 262144) && (240 + r / 262144 <? utf8.t5))
      with true by (unfold utf8.t4, utf8.t5; div_mod_lia).
    replace (utf8.cont (128 + (r / 4096) mod 64)) with true
      by (unfold utf8.cont, utf8.locb, utf8.hicb; div_mod_lia).
    replace (utf8.cont (128 + (r / 64) mod 64)) with true
      by (unfold utf8.cont, utf8.locb, utf8.hicb; div_mod_lia).
    replace (utf8.cont (128 + r mod 64)) with true
      by (unfold utf8.cont, utf8.locb, utf8.hicb; div_mod_lia).
    cbv zeta. cbn [andb]. rewrite decode_value_4 by lia.
    replace ((utf8.rune3Max <? r) && (r <=? utf8.maxRune)) with true
      by (unfold utf8.rune3Max, utf8.maxRune; lia).
    reflexivity.
Qed.

Lemma encoderune_range r :
  utf8.valid_rune r → Forall (λ b, 0 ≤ b < 256) (utf8.encoderune r).
Proof.
  unfold utf8.valid_rune, utf8.maxRune, utf8.surrogateMin, utf8.surrogateMax.
  intros [Hr Hs].
  destruct (Z.le_gt_cases r 0x7F) as [H1 | H1];
    [| destruct (Z.le_gt_cases r 0x7FF) as [H2 | H2];
       [| destruct (Z.le_gt_cases r 0xFFFF) as [H3 | H3]]].
  - rewrite encoderune_1 by lia. repeat constructor; lia.
  - rewrite encoderune_2 by lia. repeat constructor; div_mod_lia.
  - rewrite encoderune_3 by lia. repeat constructor; div_mod_lia.
  - rewrite encoderune_4 by lia. repeat constructor; div_mod_lia.
Qed.

Lemma encoderune_length r : (1 ≤ length (utf8.encoderune r))%nat.
Proof.
  unfold utf8.encoderune.
  repeat match goal with |- context [if ?c then _ else _] => destruct c end;
    simpl; lia.
Qed.

Lemma rangeRunes_encode rs :
  Forall utf8.valid_rune rs →
  ∀ fuel, (length (rs ≫= utf8.encoderune) ≤ fuel)%nat →
  utf8.rangeRunes fuel (rs ≫= utf8.encoderune) = rs.
Proof.
  induction 1 as [| r rs Hr Hrs IH]; intros fuel Hfuel.
  - destruct fuel; reflexivity.
  - rewrite bind_cons in Hfuel |- *. rewrite length_app in Hfuel.
    pose proof (encoderune_length r).
    destruct fuel as [| fuel]; [lia |].
    rewrite rangeRunes_encoderune by assumption.
    f_equal. apply IH. lia.
Qed.

Lemma bytes_of_bytes l :
  Forall (λ b, 0 ≤ b < 256) l → utf8.bytes (utf8.of_bytes l) = l.
Proof.
  intros Hl. unfold utf8.bytes, utf8.of_bytes.
  rewrite list_ascii_of_string_of_list_ascii.
  induction Hl as [| b l Hb Hl IH]; [reflexivity |].
  rewrite !fmap_cons. f_equal; [| exact IH].
  rewrite N_ascii_embedding by lia. lia.
Qed.

(** Converting runes to a string and back gives the runes: on a string
    that encodes code points, [[]rune(s)] lists exactly those. *)
Lemma stringtoslicerune_slicerunetostring rs :
  Forall utf8.valid_rune rs →
  utf8.stringtoslicerune (utf8.slicerunetostring rs) = rs.
Proof.
  intros Hrs. unfold utf8.stringtoslicerune, utf8.slicerunetostring.
  rewrite bytes_of_bytes.
  - apply rangeRunes_encode; [assumption | lia].
  - apply Forall_bind. eapply Forall_impl; [exact Hrs |].
    intros r Hr. apply encoderune_range, Hr.
Qed.

Lemma runeCount_slicerunetostring rs :
  Forall utf8.valid_rune rs →
  runeCount (utf8.slicerunetostring rs) = Z.of_nat (length rs).
Proof.
  intros Hrs. unfold runeCount.
  rewrite stringtoslicerune_slicerunetostring by assumption. reflexivity.
Qed.

(** The decoder on ill-formed input, as the Go runtime decodes it: a
    byte that starts no sequence, an overlong encoding, an encoded
    surrogate and a truncated sequence give one [runeError] per byte. *)
Example stringtoslicerune_invalid :
  utf8.rangeRunes 1 [0xFF] = [utf8.runeError]
  ∧ utf8.rangeRunes 2 [0xC0; 0x80] = [utf8.runeError; utf8.runeError]
  ∧ utf8.rangeRunes 3 [0xED; 0xA0; 0x80]
    = [utf8.runeError; utf8.runeError; utf8.runeError]
  ∧ utf8.rangeRunes 3 [0x61; 0xE3; 0x81] = [0x61; utf8.runeError; utf8.runeError].
Proof. repeat split. Qed.

Example stringtoslicerune_aiu :
  utf8.stringtoslicerune aiu = [0x3042; 0x3044; 0x3046]
  ∧ utf8.bytes aiu = [227; 129; 130; 227; 129; 132; 227; 129; 134].
Proof. split; vm_compute; reflexivity. Qed.

Example fmt_int_examples :
  fmt_int 0 = "0" ∧ fmt_int 42 = "42" ∧ fmt_int (-7) = "-7".
Proof. repeat split. Qed.

(** ** The heap *)

Lemma alloc_fresh (h : heap) o : h !! (alloc h o).1 = None.
Proof. apply not_elem_of_dom, is_fresh. Qed.

Lemma alloc_lookup (h : heap) o : (alloc h o).2 !! (alloc h o).1 = Some o.
Proof. apply lookup_insert_eq. Qed.

Lemma alloc_frame (h : heap) o l o' :
  h !! l = Some o' → (alloc h o).2 !! l = Some o'.
Proof.
  intros Hl. unfold alloc. cbn [snd].
  rewrite lookup_insert_ne; [assumption |].
  intros <-. pose proof (alloc_fresh h o) as Hf. unfold alloc in Hf.
  cbn [fst] in Hf. congruence.
Qed.

(** ** The length validators *)

Lemma assertString_same T s : assertString T (reflect.Str T s) = Return s.
Proof. unfold assertString. rewrite decide_True; reflexivity. Qed.

Lemma MinLengthValidator_Validate_at (h : heap) r rr s :
  h !! r = Some (ObjMinLength rr) →
  MinLengthValidator_Validate h r (reflect.Str (MinLengthValidator.T rr) s)
  = Return (if runeCount s <? MinLengthValidator.min rr
            then Some (MinLengthViolation
                         (MinLengthViolationError.mk s (MinLengthValidator.min rr) r))
            else None).
Proof.
  intros Hr. unfold MinLengthValidator_Validate, loadMinLength.
  rewrite Hr. cbn [mbind outcome_bind]. rewrite assertString_same.
  cbn [mbind outcome_bind]. cbv zeta.
  unfold runeCount. destruct (_ <? _); reflexivity.
Qed.

Lemma MaxLengthValidator_Validate_at (h : heap) r rr s :
  h !! r = Some (ObjMaxLength rr) →
  MaxLengthValidator_Validate h r (reflect.Str (MaxLengthValidator.T rr) s)
  = Return (if MaxLengthValidator.max rr <? runeCount s
            then Some (MaxLengthViolation
                         (MaxLengthViolationError.mk s (MaxLengthValidator.max rr) r))
            else None).
Proof.
  intros Hr. unfold MaxLengthValidator_Validate, loadMaxLength.
  rewrite Hr. cbn [mbind outcome_bind]. rewrite assertString_same.
  cbn [mbind outcome_bind]. cbv zeta.
  unfold runeCount. rewrite Z.gtb_ltb. destruct (_ <? _); reflexivity.
Qed.

Lemma LengthValidator_Validate_at (h : heap) r rr s :
  h !! r = Some (ObjLength rr) →
  LengthValidator_Validate h r (reflect.Str (LengthValidator.T rr) s)
  = Return (if (LengthValidator.min rr <=? runeCount s)
               && (runeCount s <=? LengthValidator.max rr)
            then None
            else Some (LengthViolation
                         (LengthViolationError.mk s (LengthValidator.min rr)
                            (LengthValidator.max rr) r))).
Proof.
  intros Hr. unfold LengthValidator_Validate, loadLength.
  rewrite Hr. cbn [mbind outcome_bind]. rewrite assertString_same.
  cbn [mbind outcome_bind]. cbv zeta.
  unfold runeCount. rewrite Z.gtb_ltb.
  set (c := Z.of_nat _).
  destruct (Z.ltb_spec c (LengthValidator.min rr)),
    (Z.ltb_spec (LengthValidator.max rr) c),
    (Z.leb_spec (LengthValidator.min rr) c),
    (Z.leb_spec c (LengthValidator.max rr)); try lia; reflexivity.
Qed.

(** C4. The minimum-size and maximum-size validators measure a string in
    code points, not in bytes.  For a validator made by [MinLength(n)]
    and any string [s], [Validate] returns a violation exactly when
    [len([]rune(s))] is less than [n]; for one made by [MaxLength(n)],
    exactly when it exceeds [n].  On a string that encodes the code
    points [rs], [len([]rune(s))] is the number of code points, so a
    string of three code points, however many bytes they take, satisfies
    [MinLength(3)] and fails [MaxLength(2)]. *)
Theorem C4_min_max_count_code_points
    (h : heap) (T : string) (n : Z) (s : string) (rs : list Z) :
  Forall utf8.valid_rune rs →
  MinLengthValidator_Validate (MinLength T n h).2 (MinLength T n h).1
      (reflect.Str T s)
    = Return (if runeCount s <? n
              then Some (MinLengthViolation
                           (MinLengthViolationError.mk s n (MinLength T n h).1))
              else None)
  ∧ MaxLengthValidator_Validate (MaxLength T n h).2 (MaxLength T n h).1
      (reflect.Str T s)
    = Return (if n <? runeCount s
              then Some (MaxLengthViolation
                           (MaxLengthViolationError.mk s n (MaxLength T n h).1))
              else None)
  ∧ runeCount (utf8.slicerunetostring rs) = Z.of_nat (length rs)
  ∧ (length rs = 3%nat →
     MinLengthValidator_Validate (MinLength T 3 h).2 (MinLength T 3 h).1
         (reflect.Str T (utf8.slicerunetostring rs))
       = Return None
     ∧ MaxLengthValidator_Validate (MaxLength T 2 h).2 (MaxLength T 2 h).1
         (reflect.Str T (utf8.slicerunetostring rs))
       = Return (Some (MaxLengthViolation
                         (MaxLengthViolationError.mk
                            (utf8.slicerunetostring rs) 2 (MaxLength T 2 h).1)))).
Proof.
  intros Hrs.
  assert (Hmin : ∀ m s',
    MinLengthValidator_Validate (MinLength T m h).2 (MinLength T m h).1
        (reflect.Str T s')
    = Return (if runeCount s' <? m
              then Some (MinLengthViolation
                           (MinLengthViolationError.mk s' m (MinLength T m h).1))
              else None)).
  { intros m s'. unfold MinLength.
    exact (MinLengthValidator_Validate_at _ _ _ s' (alloc_lookup h _)). }
  assert (Hmax : ∀ m s',
    MaxLengthValidator_Validate (MaxLength T m h).2 (MaxLength T m h).1
        (reflect.Str T s')
    = Return (if m <? runeCount s'
              then Some (MaxLengthViolation
                           (MaxLengthViolationError.mk s' m (MaxLength T m h).1))
              else None)).
  { intros m s'. unfold MaxLength.
    exact (MaxLengthValidator_Validate_at _ _ _ s' (alloc_lookup h _)). }
  pose proof (runeCount_slicerunetostring rs Hrs) as Hcount.
  repeat split.
  - apply Hmin.
  - apply Hmax.
  - exact Hcount.
  - rewrite Hmin, Hcount, H. reflexivity.
  - rewrite Hmax, Hcount, H. reflexivity.
Qed.

(** The string [aiu] has nine bytes and three code points: it satisfies
    [MinLength(3)] and fails [MaxLength(2)]. *)
Lemma C4_witness :
  Forall utf8.valid_rune [0x3042; 0x3044; 0x3046]
  ∧ aiu = utf8.slicerunetostring [0x3042; 0x3044; 0x3046]
  ∧ length (utf8.bytes aiu) = 9%nat
  ∧ MinLengthValidator_Validate (MinLength "string" 3 ∅).2
        (MinLength "string" 3 ∅).1 (reflect.Str "string" aiu)
      = Return None
  ∧ MaxLengthValidator_Validate (MaxLength "string" 2 ∅).2
        (MaxLength "string" 2 ∅).1 (reflect.Str "string" aiu)
      = Return (Some (MaxLengthViolation
                        (MaxLengthViolationError.mk aiu 2
                           (MaxLength "string" 2 ∅).1))).
Proof.
  assert (Hrs : Forall utf8.valid_rune [0x3042; 0x3044; 0x3046]).
  { repeat constructor; unfold utf8.maxRune, utf8.surrogateMin,
      utf8.surrogateMax; lia. }
  assert (Haiu : aiu = utf8.slicerunetostring [0x3042; 0x3044; 0x3046])
    by (vm_compute; reflexivity).
  split; [exact Hrs |]. split; [exact Haiu |].
  split; [vm_compute; reflexivity |].
  rewrite Haiu.
  exact (proj2 (proj2 (proj2
           (C4_min_max_count_code_points ∅ "string" 3 aiu _ Hrs))) eq_refl).
Defined.

(** C5. The range-size validator is inclusive on both ends.  For a
    validator made by [Length(min, max)] and any string [s], [Validate]
    returns nil exactly when [min <= len([]rune(s)) <= max], and the
    violation it returns otherwise carries the value, [min] and [max].
    On a string that encodes the code points [rs] the length is the
    number of code points; [Length(2,4)] accepts exactly the lengths 2, 3
    and 4, so it rejects 1 and 5. *)
Theorem C5_length_range_inclusive
    (h : heap) (T : string) (min max : Z) (s : string) (rs : list Z) :
  Forall utf8.valid_rune rs →
  LengthValidator_Validate (Length T min max h).2 (Length T min max h).1
      (reflect.Str T s)
    = Return (if (min <=? runeCount s) && (runeCount s <=? max)
              then None
              else Some (LengthViolation
                           (LengthViolationError.mk s min max
                              (Length T min max h).1)))
  ∧ runeCount (utf8.slicerunetostring rs) = Z.of_nat (length rs)
  ∧ (LengthValidator_Validate (Length T 2 4 h).2 (Length T 2 4 h).1
         (reflect.Str T (utf8.slicerunetostring rs))
       = Return None
     ↔ (2 ≤ length rs ≤ 4)%nat).
Proof.
  intros Hrs.
  assert (Hlen : ∀ lo hi s',
    LengthValidator_Validate (Length T lo hi h).2 (Length T lo hi h).1
        (reflect.Str T s')
    = Return (if (lo <=? runeCount s') && (runeCount s' <=? hi)
              then None
              else Some (LengthViolation
                           (LengthViolationError.mk s' lo hi
                              (Length T lo hi h).1)))).
  { intros lo hi s'. unfold Length.
    exact (LengthValidator_Validate_at _ _ _ s' (alloc_lookup h _)). }
  pose proof (runeCount_slicerunetostring rs Hrs) as Hcount.
  split; [apply Hlen |]. split; [exact Hcount |].
  rewrite Hlen, Hcount.
  destruct (Z.leb_spec 2 (Z.of_nat (length rs))),
    (Z.leb_spec (Z.of_nat (length rs)) 4); cbn [andb];
    split; intros; try discriminate; try reflexivity; lia.
Qed.

(** Two code points in six bytes are within [Length(2,4)]. *)
Lemma C5_witness :
  Forall utf8.valid_rune [0x3042; 0x3044]
  ∧ length (utf8.bytes (utf8.slicerunetostring [0x3042; 0x3044])) = 6%nat
  ∧ LengthValidator_Validate (Length "string" 2 4 ∅).2
        (Length "string" 2 4 ∅).1
        (reflect.Str "string" (utf8.slicerunetostring [0x3042; 0x3044]))
      = Return None.
Proof.
  assert (Hrs : Forall utf8.valid_rune [0x3042; 0x3044]).
  { repeat constructor; unfold utf8.maxRune, utf8.surrogateMin,
      utf8.surrogateMax; lia. }
  split; [exact Hrs |]. split; [vm_compute; reflexivity |].
  apply (proj2 (proj2 (C5_length_range_inclusive ∅ "string" 2 4 "" _ Hrs))).
  cbn [length]. lia.
Defined.

(** ** The non-empty validator *)

Lemma runeCount_empty : runeCount "" = 0.
Proof. reflexivity. Qed.

Lemma runeCount_nonempty a s : 1 ≤ runeCount (String a s).
Proof.
  unfold runeCount, utf8.stringtoslicerune, utf8.bytes.
  cbn [list_ascii_of_string]. rewrite fmap_cons.
  cbn [length utf8.rangeRunes].
  destruct (_ <? utf8.runeSelf); [cbn [length]; lia |].
  destruct (utf8.decoderune _) as [r w]. cbn [length]. lia.
Qed.

Lemma notEmptyValidator_Validate_at T s :
  notEmptyValidator_Validate T (reflect.Str T s)
  = Return (if decide (s = "")
            then Some (RangeMinViolation (RangeMinViolationError.mk 1 0 s))
            else None).
Proof.
  unfold notEmptyValidator_Validate. rewrite assertString_same.
  cbn [mbind outcome_bind]. destruct (decide (s = "")); reflexivity.
Qed.

(** C10. [NotEmpty] applied to a string returns an error exactly when
    the string is empty; the error is a [RangeMinViolationError] with
    [Min = 1] and the empty value; for a non-empty string it returns
    nil. *)
Theorem C10_NotEmpty_fails_iff_empty (h : heap) (s : string) :
  Validate NotEmpty h (reflect.Str "string" s)
    = Return (if decide (s = "")
              then Some (RangeMinViolation (RangeMinViolationError.mk 1 0 ""))
              else None)
  ∧ (Validate NotEmpty h (reflect.Str "string" s) = Return None ↔ s ≠ "").
Proof.
  unfold NotEmpty. cbn [Validate]. rewrite notEmptyValidator_Validate_at.
  destruct (decide (s = "")) as [-> | Hs].
  - split; [reflexivity |]. split; [discriminate | congruence].
  - split; [reflexivity |]. split; [intros _; exact Hs | reflexivity].
Qed.

(** ** Rendering *)

(** C8. Without a custom printer a violation renders through the
    built-in default printer: a minimum-size violation as "the length
    must be no less than {min}", a maximum-size violation as "the length
    must be no greater than {max}", a range violation as "the length must
    be in range({min} ... {max})", with the thresholds in decimal; the
    violation of the non-emptiness check always renders as "requires". *)
Theorem C8_default_printers
    (h : heap)
    (e1 : MinLengthViolationError.t) (v1 : MinLengthValidator.t)
    (e2 : MaxLengthViolationError.t) (v2 : MaxLengthValidator.t)
    (e3 : LengthViolationError.t) (v3 : LengthValidator.t)
    (e4 : RangeMinViolationError.t) :
  h !! MinLengthViolationError.rule e1 = Some (ObjMinLength v1) →
  MinLengthValidator.p v1 = None →
  h !! MaxLengthViolationError.rule e2 = Some (ObjMaxLength v2) →
  MaxLengthValidator.p v2 = None →
  h !! LengthViolationError.rule e3 = Some (ObjLength v3) →
  LengthValidator.p v3 = None →
  Error h (MinLengthViolation e1)
    = Return ("the length must be no less than "
                +:+ fmt_int (MinLengthViolationError.Min e1))
  ∧ Error h (MaxLengthViolation e2)
    = Return ("the length must be no greater than "
                +:+ fmt_int (MaxLengthViolationError.Max e2))
  ∧ Error h (LengthViolation e3)
    = Return ("the length must be in range("
                +:+ fmt_int (LengthViolationError.Min e3) +:+ " ... "
                +:+ fmt_int (LengthViolationError.Max e3) +:+ ")")
  ∧ Error h (RangeMinViolation e4) = Return "requires".
Proof.
  intros H1 P1 H2 P2 H3 P3. cbn [Error].
  unfold MinLengthViolationError_Error, MaxLengthViolationError_Error,
    LengthViolationError_Error, loadMinLength, loadMaxLength, loadLength.
  rewrite H1, H2, H3. cbn [mbind outcome_bind]. rewrite P1, P2, P3.
  repeat split.
Qed.

(** The violations that [MinLength(3)], [MaxLength(2)] and [Length(2,4)]
    return, rendered. *)
Lemma C8_witness :
  Error example_heap
      (MinLengthViolation (MinLengthViolationError.mk "ab" 3 1%positive))
    = Return "the length must be no less than 3"
  ∧ Error example_heap
      (MaxLengthViolation (MaxLengthViolationError.mk "abc" 2 2%positive))
    = Return "the length must be no greater than 2"
  ∧ Error example_heap
      (LengthViolation (LengthViolationError.mk "a" 2 4 3%positive))
    = Return "the length must be in range(2 ... 4)"
  ∧ Error example_heap (RangeMinViolation (RangeMinViolationError.mk 1 0 ""))
    = Return "requires".
Proof.
  exact (C8_default_printers example_heap
           (MinLengthViolationError.mk "ab" 3 1%positive)
           (MinLengthValidator.mk "string" 3 None)
           (MaxLengthViolationError.mk "abc" 2 2%positive)
           (MaxLengthValidator.mk "string" 2 None)
           (LengthViolationError.mk "a" 2 4 3%positive)
           (LengthValidator.mk "string" 2 4 None)
           (RangeMinViolationError.mk 1 0 "")
           eq_refl eq_refl eq_refl eq_refl eq_refl eq_refl).
Defined.

(** ** Copy-on-configure *)

(** Induction on errors; the members of a joined error all satisfy the
    property. *)
Lemma error_nested_ind (P : error → Prop) :
  (∀ e, P (MinLengthViolation e)) →
  (∀ e, P (MaxLengthViolation e)) →
  (∀ e, P (LengthViolation e)) →
  (∀ e, P (RangeMinViolation e)) →
  (∀ msg err, P err → P (wrapError msg err)) →
  (∀ errs, Forall P errs → P (joinError errs)) →
  (∀ msg, P (errorString msg)) →
  ∀ err, P err.
Proof.
  intros Hmin Hmax Hlen Hrange Hwrap Hjoin Hstr.
  fix IH 1. intros [e | e | e | e | msg err | errs | msg].
  - apply Hmin.
  - apply Hmax.
  - apply Hlen.
  - apply Hrange.
  - apply Hwrap, IH.
  - apply Hjoin.
    refine ((fix members (l : list error) : Forall P l :=
               match l with
               | [] => Forall_nil_2 P
               | e :: l' => Forall_cons_2 P e l' (IH e) (members l')
               end) errs).
  - apply Hstr.
Qed.

(** An error that renders in a heap renders the same in every heap that
    keeps the validators of the first. *)
Lemma Error_frame (h h' : heap) :
  (∀ l o, h !! l = Some o → h' !! l = Some o) →
  ∀ err s, Error h err = Return s → Error h' err = Return s.
Proof.
  intros Hsub err.
  induction err as [e | e | e | e | msg err IH | errs IH | msg]
    using error_nested_ind; intros s; cbn [Error]; try (intros Hs; exact Hs).
  - unfold MinLengthViolationError_Error, loadMinLength.
    destruct (h !! _) as [[v | v | v] |] eqn:E; try discriminate.
    rewrite (Hsub _ _ E). trivial.
  - unfold MaxLengthViolationError_Error, loadMaxLength.
    destruct (h !! _) as [[v | v | v] |] eqn:E; try discriminate.
    rewrite (Hsub _ _ E). trivial.
  - unfold LengthViolationError_Error, loadLength.
    destruct (h !! _) as [[v | v | v] |] eqn:E; try discriminate.
    rewrite (Hsub _ _ E). trivial.
  - destruct IH as [| e0 rest IH0 IHrest]; [discriminate |].
    destruct (Error h e0) as [b |] eqn:E0; [| discriminate].
    rewrite (IH0 _ eq_refl). cbn [mbind outcome_bind].
    clear E0 IH0. revert b.
    induction IHrest as [| e1 rest IH1 _ IHloop]; intros b; [trivial |].
    destruct (Error h e1) as [s1 |] eqn:E1; [| discriminate].
    rewrite (IH1 _ eq_refl). cbn [mbind outcome_bind]. apply IHloop.
Qed.

Lemma alloc_copy_on_configure (h : heap) (o : object) :
  copy_on_configure h (Return (alloc h o)) o.
Proof.
  exists (alloc h o).1, (alloc h o).2.
  split; [reflexivity |].
  split; [apply alloc_fresh |].
  split; [apply alloc_lookup |].
  assert (Hframe : ∀ l o', h !! l = Some o' → (alloc h o).2 !! l = Some o')
    by (intros l o'; apply alloc_frame).
  split; [exact Hframe |].
  apply Error_frame, Hframe.
Qed.

Lemma alloc_renders_with_min (h : heap) v p :
  MinLengthValidator.p v = Some p →
  renders_with MinLengthViolation MinLengthViolationError.rule
    (Return (alloc h (ObjMinLength v))) p.
Proof.
  intros Hp. eexists _, _. split; [reflexivity |]. intros e He.
  cbn [Error]. unfold MinLengthViolationError_Error, loadMinLength.
  rewrite He, lookup_insert_eq. cbn [mbind outcome_bind]. rewrite Hp.
  reflexivity.
Qed.

Lemma alloc_renders_with_max (h : heap) v p :
  MaxLengthValidator.p v = Some p →
  renders_with MaxLengthViolation MaxLengthViolationError.rule
    (Return (alloc h (ObjMaxLength v))) p.
Proof.
  intros Hp. eexists _, _. split; [reflexivity |]. intros e He.
  cbn [Error]. unfold MaxLengthViolationError_Error, loadMaxLength.
  rewrite He, lookup_insert_eq. cbn [mbind outcome_bind]. rewrite Hp.
  reflexivity.
Qed.

Lemma alloc_renders_with_len (h : heap) v p :
  LengthValidator.p v = Some p →
  renders_with LengthViolation LengthViolationError.rule
    (Return (alloc h (ObjLength v))) p.
Proof.
  intros Hp. eexists _, _. split; [reflexivity |]. intros e He.
  cbn [Error]. unfold LengthViolationError_Error, loadLength.
  rewrite He, lookup_insert_eq. cbn [mbind outcome_bind]. rewrite Hp.
  reflexivity.
Qed.

(** C6. [WithPrinter] and [WithPrinterFunc] of the three length
    validators are copy-on-configure.  Called on a validator of the heap,
    each returns a pointer to a new validator (an address that held
    nothing before) with the thresholds of the receiver and the custom
    printer; every validator that existed before, the receiver among
    them, is left as it was, and every error renders as it rendered
    before the call; the violations of the new validator render through
    the custom printer. *)
Theorem C6_copy_on_configure
    (h : heap) (r1 r2 r3 : loc)
    (v1 : MinLengthValidator.t) (v2 : MaxLengthValidator.t)
    (v3 : LengthValidator.t)
    (p1 : MinLengthViolationError.t → string)
    (p2 : MaxLengthViolationError.t → string)
    (p3 : LengthViolationError.t → string)
    (fn1 fn2 : Z → string) (fn3 : Z → Z → string) :
  h !! r1 = Some (ObjMinLength v1) →
  h !! r2 = Some (ObjMaxLength v2) →
  h !! r3 = Some (ObjLength v3) →
  (copy_on_configure h (MinLengthValidator_WithPrinter h r1 p1)
     (ObjMinLength
        (MinLengthValidator.mk (MinLengthValidator.T v1)
           (MinLengthValidator.min v1) (Some p1)))
   ∧ renders_with MinLengthViolation MinLengthViolationError.rule
       (MinLengthValidator_WithPrinter h r1 p1) p1)
  ∧ (copy_on_configure h (MinLengthValidator_WithPrinterFunc h r1 fn1)
       (ObjMinLength
          (MinLengthValidator.mk (MinLengthValidator.T v1)
             (MinLengthValidator.min v1)
             (Some (λ e, fn1 (MinLengthViolationError.Min e)))))
     ∧ renders_with MinLengthViolation MinLengthViolationError.rule
         (MinLengthValidator_WithPrinterFunc h r1 fn1)
         (λ e, fn1 (MinLengthViolationError.Min e)))
  ∧ (copy_on_configure h (MaxLengthValidator_WithPrinter h r2 p2)
       (ObjMaxLength
          (MaxLengthValidator.mk (MaxLengthValidator.T v2)
             (MaxLengthValidator.max v2) (Some p2)))
     ∧ renders_with MaxLengthViolation MaxLengthViolationError.rule
         (MaxLengthValidator_WithPrinter h r2 p2) p2)
  ∧ (copy_on_configure h (MaxLengthValidator_WithPrinterFunc h r2 fn2)
       (ObjMaxLength
          (MaxLengthValidator.mk (MaxLengthValidator.T v2)
             (MaxLengthValidator.max v2)
             (Some (λ e, fn2 (MaxLengthViolationError.Max e)))))
     ∧ renders_with MaxLengthViolation MaxLengthViolationError.rule
         (MaxLengthValidator_WithPrinterFunc h r2 fn2)
         (λ e, fn2 (MaxLengthViolationError.Max e)))
  ∧ (copy_on_configure h (LengthValidator_WithPrinter h r3 p3)
       (ObjLength
          (LengthValidator.mk (LengthValidator.T v3) (LengthValidator.min v3)
             (LengthValidator.max v3) (Some p3)))
     ∧ renders_with LengthViolation LengthViolationError.rule
         (LengthValidator_WithPrinter h r3 p3) p3)
  ∧ (copy_on_configure h (LengthValidator_WithPrinterFunc h r3 fn3)
       (ObjLength
          (LengthValidator.mk (LengthValidator.T v3) (LengthValidator.min v3)
             (LengthValidator.max v3)
             (Some (λ e, fn3 (LengthViolationError.Min e)
                             (LengthViolationError.Max e)))))
     ∧ renders_with LengthViolation LengthViolationError.rule
         (LengthValidator_WithPrinterFunc h r3 fn3)
         (λ e, fn3 (LengthViolationError.Min e) (LengthViolationError.Max e))).
Proof.
  intros H1 H2 H3.
  unfold MinLengthValidator_WithPrinter, MinLengthValidator_WithPrinterFunc,
    MaxLengthValidator_WithPrinter, MaxLengthValidator_WithPrinterFunc,
    LengthValidator_WithPrinter, LengthValidator_WithPrinterFunc,
    loadMinLength, loadMaxLength, loadLength, printerFunc.
  rewrite H1, H2, H3. cbn [mbind outcome_bind]. cbv zeta.
  repeat split;
    first [ apply alloc_copy_on_configure
          | apply alloc_renders_with_min; reflexivity
          | apply alloc_renders_with_max; reflexivity
          | apply alloc_renders_with_len; reflexivity ].
Qed.

(** On [example_heap], attaching printers to the validators at the
    addresses 1, 2 and 3 leaves them and their rendering as they were. *)
Lemma C6_witness :
  (example_heap !! 1%positive
     = Some (ObjMinLength (MinLengthValidator.mk "string" 3 None))
   ∧ example_heap !! 2%positive
     = Some (ObjMaxLength (MaxLengthValidator.mk "string" 2 None))
   ∧ example_heap !! 3%positive
     = Some (ObjLength (LengthValidator.mk "string" 2 4 None)))
  ∧ copy_on_configure example_heap
      (MinLengthValidator_WithPrinterFunc example_heap 1%positive
         (λ min, "too short"))
      (ObjMinLength
         (MinLengthValidator.mk "string" 3
            (Some (λ e, "too short"))))
  ∧ copy_on_configure example_heap
      (LengthValidator_WithPrinter example_heap 3%positive (λ e, "bad length"))
      (ObjLength
         (LengthValidator.mk "string" 2 4 (Some (λ e, "bad length")))).
Proof.
  pose proof (C6_copy_on_configure example_heap 1%positive 2%positive
                3%positive
                (MinLengthValidator.mk "string" 3 None)
                (MaxLengthValidator.mk "string" 2 None)
                (LengthValidator.mk "string" 2 4 None)
                (λ e, "min") (λ e, "max") (λ e, "bad length")
                (λ min, "too short") (λ max, "too long")
                (λ min max, "out of range")
                eq_refl eq_refl eq_refl) as H.
  split; [repeat split |].
  split; [exact (proj1 (proj1 (proj2 H))) |].
  exact (proj1 (proj1 (proj2 (proj2 (proj2 (proj2 H)))))).
Defined.

(** ** Registration *)

(** [lookupStructField] returns the first field, in the order of
    [reflect.VisibleFields], whose offset is [off]. *)
Lemma lookupStructField_loop_spec fields off :
  match lookupStructField_loop fields off with
  | Return f =>
      ∃ before after,
        fields = before ++ f :: after
        ∧ reflect.Offset f = off
        ∧ ∀ g, g ∈ before → reflect.Offset g ≠ off
  | Panics why =>
      why = PanicXxx ∧ ∀ g, g ∈ fields → reflect.Offset g ≠ off
  end.
Proof.
  induction fields as [| f fields IH]; cbn [lookupStructField_loop].
  - split; [reflexivity |]. intros g Hg. inversion Hg.
  - destruct (decide (reflect.Offset f = off)) as [Hf | Hf].
    + exists [], fields. split; [reflexivity |]. split; [exact Hf |].
      intros g Hg. inversion Hg.
    + destruct (lookupStructField_loop fields off) as [f' | why].
      * destruct IH as (before & after & -> & Hoff & Hbefore).
        exists (f :: before), after. split; [reflexivity |].
        split; [exact Hoff |].
        intros g Hg. apply elem_of_cons in Hg as [-> | Hg]; auto.
      * destruct IH as [-> IH]. split; [reflexivity |].
        intros g Hg. apply elem_of_cons in Hg as [-> | Hg]; auto.
Qed.

(** What [Add] does with the offset it computes.  With the template at
    address [bp] and the pointer [pp], so that the computed offset is
    [pp - bp] as a uintptr, [Add] panics (with the panic of
    [lookupStructField]) exactly when no entry of the list of visible
    fields has that number as its [Offset]; otherwise it returns, and the
    rule stored under [name] has the index path of the first entry of the
    list whose [Offset] is the computed number.  The [Offset] of an entry
    is the offset within the struct that declares the field, which for a
    field promoted from an embedded struct is not the offset within the
    template. *)
Lemma Add_first_offset_match
    (bp pp : Z) (visible : list reflect.StructField)
    (fs : list (reflect.decl * any)) (elem : option any)
    (rs : option (gmap string rule)) (name : string) (vs : list Validator) :
  let template := reflect.Ptr bp (Some (reflect.Struct visible fs)) in
  let s := {| base := template; rules := rs |} in
  let p := reflect.Ptr pp elem in
  let off := uintptr (pp - bp) in
  match RuleSet_Add s p name vs with
  | Return s' =>
      ∃ before f after,
        visible = before ++ f :: after
        ∧ reflect.Offset f = off
        ∧ (∀ g, g ∈ before → reflect.Offset g ≠ off)
        ∧ base s' = template
        ∧ rules s'
          = Some (<[name := {| Name := name; Validators := vs; Offset := off;
                               Index := reflect.Index f |}]>
                    (default ∅ rs))
  | Panics why =>
      why = PanicXxx ∧ ∀ g, g ∈ visible → reflect.Offset g ≠ off
  end
  ∧ (RuleSet_Add s p name vs = Panics PanicXxx
     ↔ ∀ g, g ∈ visible → reflect.Offset g ≠ off)
  ∧ (returns (RuleSet_Add s p name vs)
     ↔ ∃ g, g ∈ visible ∧ reflect.Offset g = off)
  ∧ Struct (reflect.Struct visible fs) bp (λ s0 _, RuleSet_Add s0 p name vs)
    = RuleSet_Add {| base := template; rules := None |} p name vs.
Proof.
  intros template s p off.
  assert (Hadd : ∀ rs0,
    RuleSet_Add {| base := template; rules := rs0 |} p name vs
    = f ← lookupStructField_loop visible off;
      Return {| base := template;
                rules := Some (<[name := {| Name := name; Validators := vs;
                                            Offset := reflect.Offset f;
                                            Index := reflect.Index f |}]>
                                 (default ∅ rs0)) |}).
  { intros rs0. unfold RuleSet_Add, RuleSet_offsetOf, lookupStructField.
    cbn [base rules reflect.Pointer reflect.ValueOf reflect.val template p
         reflect.VisibleFieldsOfElem mbind outcome_bind].
    destruct rs0; reflexivity. }
  unfold s. rewrite Hadd.
  pose proof (lookupStructField_loop_spec visible off) as Hspec.
  destruct (lookupStructField_loop visible off) as [f | why];
    cbn [mbind outcome_bind].
  - destruct Hspec as (before & after & Hvis & Hoff & Hbefore).
    assert (Hin : f ∈ visible).
    { rewrite Hvis. apply elem_of_app. right. apply elem_of_cons. by left. }
    split; [| split; [| split]].
    + exists before, f, after. rewrite Hoff. auto.
    + split; [discriminate |]. intros Hnone. destruct (Hnone f Hin Hoff).
    + split; [intros _; exists f; auto | intros _; eexists; reflexivity].
    + reflexivity.
  - destruct Hspec as [-> Hnone].
    split; [| split; [| split]].
    + auto.
    + split; auto.
    + split.
      * intros [s' Hs']. discriminate.
      * intros (g & Hg & Hoff). destruct (Hnone g Hg Hoff).
    + reflexivity.
Qed.

(** C7. Registration is meant to resolve the field pointer to the field
    it points at and never to bind another field; for a field promoted
    from an embedded struct the code does not.  For
    [type person struct { ID string; name }] with the embedded
    [type name struct { First, Middle, Last string }], the field [Middle]
    is a visible field with the index path [1, 1], at 32 bytes from the
    start of the template.  [Add(&v.Middle, "middle", NotEmpty)] returns
    and stores the index path [1, 2] of the field [Last], whose offset
    within [name] is 32: the rule set then accepts a person without a
    middle name and reports a person without a last name under the name
    "middle".  [Add(&v.First, ...)] stores the index path of the embedded
    struct, and [Add(&v.Last, ...)] panics although [Last] is a visible
    field. *)
Theorem C7_Add_binds_another_field :
  VisibleFields person_type = Return person_fields
  ∧ VisibleFields name_type = Return name_fields
  ∧ fieldOffset person_type [1%nat; 0%nat] = Some 16
  ∧ fieldOffset person_type [1%nat; 1%nat] = Some 32
  ∧ fieldOffset person_type [1%nat; 2%nat] = Some 48
  ∧ RuleSet_Add
      {| base := reflect.Ptr 0xc000012000 (Some (person "" "" "" ""));
         rules := None |}
      (reflect.Ptr (0xc000012000 + 32) (Some (reflect.Str "string" "")))
      "middle" [NotEmpty]
    = Return
        {| base := reflect.Ptr 0xc000012000 (Some (person "" "" "" ""));
           rules := Some (<["middle" := rule_middle]> ∅) |}
  ∧ RuleSet_Validate ∅ [("middle", rule_middle)]
      (person "7" "Ada" "" "Lovelace") = Return None
  ∧ RuleSet_Validate ∅ [("middle", rule_middle)] (person "7" "Ada" "King" "")
    = Return (Some (joinError
        [joinError
           [wrapError "'middle' requires"
              (RangeMinViolation (RangeMinViolationError.mk 1 0 ""))]]))
  ∧ (∃ s',
       RuleSet_Add
         {| base := reflect.Ptr 0xc000012000 (Some (person "" "" "" ""));
            rules := None |}
         (reflect.Ptr (0xc000012000 + 16) (Some (reflect.Str "string" "")))
         "first" [NotEmpty] = Return s'
       ∧ (Index <$> lookup_rule s' "first") = Some [1%nat])
  ∧ RuleSet_Add
      {| base := reflect.Ptr 0xc000012000 (Some (person "" "" "" ""));
         rules := None |}
      (reflect.Ptr (0xc000012000 + 48) (Some (reflect.Str "string" "")))
      "last" [NotEmpty]
    = Panics PanicXxx.
Proof.
  split; [vm_compute; reflexivity |].
  split; [vm_compute; reflexivity |].
  split; [vm_compute; reflexivity |].
  split; [vm_compute; reflexivity |].
  split; [vm_compute; reflexivity |].
  split; [reflexivity |].
  split; [reflexivity |].
  split; [reflexivity |].
  split; [| reflexivity].
  eexists. split; reflexivity.
Qed.

(** ** Validation *)

Lemma omap_id_Some (errs : list error) : omap id (Some <$> errs) = errs.
Proof.
  induction errs as [| e errs IH]; [reflexivity |].
  rewrite fmap_cons. cbn [omap list_omap id]. f_equal. exact IH.
Qed.

Lemma errors_Join_Some (errs : list error) :
  errors_Join (Some <$> errs)
  = match errs with
    | [] => None
    | _ => Some (joinError errs)
    end.
Proof.
  unfold errors_Join. rewrite omap_id_Some. destruct errs; reflexivity.
Qed.

Lemma violations_of_Join (errs : list error) :
  violations_of (errors_Join (Some <$> errs)) = flat_map violations errs.
Proof. rewrite errors_Join_Some. destruct errs; reflexivity. Qed.

Lemma rule_Validate_loop_spec h name ps v errs :
  Forall (λ p, returns (Validate p h v)) ps →
  rule_Validate_loop h name ps v errs
  = Return (errs ++ omap (λ p, fmt_Errorf h name <$> failure h v p) ps).
Proof.
  intros Hps. revert errs.
  induction Hps as [| p ps [res Hp] _ IH]; intros errs;
    cbn [rule_Validate_loop omap list_omap].
  - rewrite app_nil_r. reflexivity.
  - unfold failure at 1. rewrite Hp. cbn [mbind outcome_bind].
    destruct res as [err |]; cbn [fmap option_fmap option_map].
    + rewrite IH, <- app_assoc. reflexivity.
    + apply IH.
Qed.

Lemma rule_Validate_spec h r v :
  Forall (λ p, returns (Validate p h v)) (Validators r) →
  rule_Validate h r v = Return (errors_Join (Some <$> rule_failures h r v)).
Proof.
  intros Hps. unfold rule_Validate.
  rewrite (rule_Validate_loop_spec _ _ _ _ _ Hps). reflexivity.
Qed.

(** A wrapped error is one violation. *)
Lemma violations_rule_failures h r v :
  flat_map violations (rule_failures h r v) = rule_failures h r v.
Proof.
  unfold rule_failures.
  induction (Validators r) as [| p ps IH]; [reflexivity |].
  cbn [omap list_omap]. destruct (failure h v p) as [err |];
    cbn [fmap option_fmap option_map flat_map violations fmt_Errorf app].
  - f_equal. exact IH.
  - exact IH.
Qed.

Lemma RuleSet_Validate_loop_spec h p order errs :
  well_typed h p order →
  RuleSet_Validate_loop h p order errs
  = Return (errs ++ omap (rule_result h p) order).
Proof.
  revert errs. induction order as [| [n r] order IH]; intros errs Hwt;
    cbn [RuleSet_Validate_loop omap list_omap].
  - rewrite app_nil_r. reflexivity.
  - destruct (Hwt n r) as (x & Hx & Hqs); [apply elem_of_cons; by left |].
    assert (Hwt' : well_typed h p order).
    { intros n' r' Hin. apply (Hwt n' r'). apply elem_of_cons. by right. }
    unfold rule_result at 1. cbn [snd]. rewrite Hx.
    cbn [mbind outcome_bind].
    rewrite rule_Validate_spec by (apply Forall_forall; exact Hqs).
    cbn [mbind outcome_bind].
    destruct (errors_Join _) as [err |].
    + rewrite IH by exact Hwt'. rewrite <- app_assoc. reflexivity.
    + apply IH, Hwt'.
Qed.

Lemma RuleSet_Validate_indirect h order v :
  RuleSet_Validate h order v
  = errs ← RuleSet_Validate_loop h (indirect v) order [];
    Return (errors_Join (Some <$> errs)).
Proof.
  unfold RuleSet_Validate, indirect, reflect.isPointer, reflect.Elem.
  destruct v as [| T s | n | visible fs | addr [x |]]; reflexivity.
Qed.

Lemma RuleSet_Validate_spec h order v :
  well_typed h (indirect v) order →
  RuleSet_Validate h order v
  = Return (errors_Join (Some <$> omap (rule_result h (indirect v)) order)).
Proof.
  intros Hwt. rewrite RuleSet_Validate_indirect.
  rewrite (RuleSet_Validate_loop_spec _ _ _ _ Hwt). reflexivity.
Qed.

Lemma violations_rule_results h p order :
  flat_map violations (omap (rule_result h p) order) = all_failures h p order.
Proof.
  unfold all_failures.
  induction order as [| nr order IH]; [reflexivity |].
  rewrite bind_cons. cbn [omap list_omap]. unfold rule_result at 1.
  destruct (fieldOf p nr.2) as [x | why]; [| exact IH].
  pose proof (violations_of_Join (rule_failures h nr.2 x)) as Hj.
  rewrite violations_rule_failures in Hj.
  destruct (errors_Join _) as [err |]; cbn [violations_of] in Hj;
    cbn [flat_map]; rewrite <- Hj, IH; reflexivity.
Qed.

Lemma well_typed_Permutation h p rs rs' :
  rs ≡ₚ rs' → well_typed h p rs' → well_typed h p rs.
Proof.
  intros Hperm Hwt n r Hin. apply (Hwt n r). rewrite <- Hperm. exact Hin.
Qed.



Lemma well_typed_Forall h p rs :
  Forall (λ nr : string * rule,
            ∃ x, fieldOf p nr.2 = Return x
                 ∧ Forall (λ q, returns (Validate q h x)) (Validators nr.2)) rs →
  well_typed h p rs.
Proof.
  intros Hrs n r Hin.
  destruct (proj1 (Forall_forall _ _) Hrs _ Hin) as (x & Hx & Hqs).
  exists x. split; [exact Hx |]. apply Forall_forall, Hqs.
Qed.



Lemma example_well_typed (title body : string) :
  well_typed example_heap (indirect (article title body)) example_order.
Proof.
  apply well_typed_Forall.
  unfold example_order.
  repeat apply Forall_cons_2; try apply Forall_nil_2;
    (eexists; split;
     [reflexivity | apply Forall_cons_2; [| apply Forall_nil_2]]).
  - eexists. apply notEmptyValidator_Validate_at.
  - eexists.
    apply (MinLengthValidator_Validate_at example_heap 1%positive
             (MinLengthValidator.mk "string" 3 None)).
    reflexivity.
  - eexists. apply notEmptyValidator_Validate_at.
Qed.


Lemma failures_quiet h name x (qs : list Validator) :
  (∀ q, q ∈ qs → Validate q h x = Return None) →
  omap (λ p, fmt_Errorf h name <$> failure h x p) qs = [].
Proof.
  induction qs as [| q qs IH]; intros Hqs; [reflexivity |].
  cbn [omap list_omap]. unfold failure at 1.
  rewrite (Hqs q) by (apply elem_of_cons; by left).
  cbn [fmap option_fmap option_map]. apply IH.
  intros q' Hq'. apply Hqs. apply elem_of_cons. by right.
Qed.

Lemma satisfied_well_typed h p rs : satisfied h p rs → well_typed h p rs.
Proof.
  intros Hsat n r Hin. destruct (Hsat n r Hin) as (x & Hx & Hqs).
  exists x. split; [exact Hx |]. intros q Hq. eexists. apply Hqs, Hq.
Qed.

Lemma rule_results_quiet h p rs :
  satisfied h p rs → omap (rule_result h p) rs = [].
Proof.
  induction rs as [| [n r] rs IH]; intros Hsat; [reflexivity |].
  cbn [omap list_omap]. unfold rule_result at 1. cbn [snd].
  destruct (Hsat n r) as (x & Hx & Hqs); [apply elem_of_cons; by left |].
  rewrite Hx. unfold rule_failures. rewrite failures_quiet by exact Hqs.
  cbn [fmap list_fmap errors_Join omap list_omap].
  apply IH. intros n' r' Hin. apply (Hsat n' r'). apply elem_of_cons. by right.
Qed.







(** ** Remarks *)

(** [Error] panics with a run-time error only: a nil validator pointer
    in a violation, or a joined error without members. *)
Lemma Error_panics (h : heap) (err : error) (why : panic) :
  Error h err = Panics why → why = PanicNilDeref ∨ why = PanicIndex.
Proof.
  revert why.
  induction err as [e | e | e | e | msg err IH | errs IH | msg]
    using error_nested_ind; intros why; cbn [Error]; try discriminate.
  - unfold MinLengthViolationError_Error, loadMinLength.
    destruct (h !! _) as [[v | v | v] |]; cbn [mbind outcome_bind];
      intros [= <-]; auto.
  - unfold MaxLengthViolationError_Error, loadMaxLength.
    destruct (h !! _) as [[v | v | v] |]; cbn [mbind outcome_bind];
      intros [= <-]; auto.
  - unfold LengthViolationError_Error, loadLength.
    destruct (h !! _) as [[v | v | v] |]; cbn [mbind outcome_bind];
      intros [= <-]; auto.
  - destruct IH as [| e0 rest IH0 IHrest]; [intros [= <-]; auto |].
    destruct (Error h e0) as [b |]; cbn [mbind outcome_bind];
      [clear IH0 | apply IH0; reflexivity].
    revert b. induction IHrest as [| e1 rest IH1 _ IHloop]; intros b;
      [discriminate |].
    destruct (Error h e1) as [s1 |]; cbn [mbind outcome_bind];
      [apply IHloop | apply IH1; reflexivity].
Qed.

(** The builder of the example returns the rule set with the three rules
    of [example_order]. *)
Example example_registry_returns :
  example_registry
  = Return {| base := reflect.Ptr 0xc000012000 (Some (article "" ""));
              rules := Some (list_to_map example_order) |}.
Proof. reflexivity. Qed.

(** A pointer into the middle of the field [Title] (offset 8) matches no
    field of an article: [Add] panics. *)
Example Add_between_fields_panics :
  RuleSet_Add example_rules (reflect.Ptr 0xc000012008 None) "x" [NotEmpty]
  = Panics PanicXxx.
Proof. reflexivity. Qed.

(** A pointer below the template gives an offset near [2 ^ 64], which
    matches no field either. *)
Example Add_below_template_panics :
  RuleSet_offsetOf example_rules (reflect.Ptr 0xc000011ff0 None)
  = Return (2 ^ 64 - 16)
  ∧ RuleSet_Add example_rules (reflect.Ptr 0xc000011ff0 None) "x" [NotEmpty]
    = Panics PanicXxx.
Proof. split; reflexivity. Qed.

(** An embedded struct and its first field have the same address and the
    same offset; the pointer to either resolves to the first of the two
    in the list of visible fields, the embedded struct. *)
Example Add_equal_offsets_binds_first :
  ∃ s', RuleSet_Add
          {| base := reflect.Ptr 0xc000012000
                       (Some (reflect.Struct outer_fields []));
             rules := None |}
          (reflect.Ptr 0xc000012000 (Some (reflect.Str "string" "")))
          "a" [NotEmpty]
        = Return s'
        ∧ Index <$> (rules s' ≫= (.!! "a")) = Some [0%nat].
Proof. eexists. split; reflexivity. Qed.

(** * Further properties *)

(** ** Registration: what [Add] stores *)

Lemma RuleSet_Add_inv s p name vs s' :
  RuleSet_Add s p name vs = Return s' →
  ∃ f, lookupStructField (base s) f.(reflect.Offset) = Return f
       ∧ s' = {| base := base s;
                 rules := Some (<[name := {| Name := name; Validators := vs;
                                             Offset := reflect.Offset f;
                                             Index := reflect.Index f |}]>
                                  (default ∅ (rules s))) |}.
Proof.
  unfold RuleSet_Add. destruct (RuleSet_offsetOf s p) as [off |];
    cbn [mbind outcome_bind]; [| discriminate].
  destruct (lookupStructField (base s) off) as [f |] eqn:Hf;
    cbn [mbind outcome_bind]; [| discriminate].
  intros [= <-]. exists f. split.
  - unfold lookupStructField in *.
    destruct (reflect.VisibleFieldsOfElem (base s)) as [fields |];
      cbn [mbind outcome_bind] in *; [| discriminate].
    pose proof (lookupStructField_loop_spec fields off) as Hspec.
    rewrite Hf in Hspec. destruct Hspec as (_ & _ & _ & -> & _). exact Hf.
  - destruct (rules s); reflexivity.
Qed.

(** X1. [Add] stores the new rule under its name and leaves everything
    else alone: when [Add] returns, the rule found under [name] has that
    name and the given validators, the rules under all other names are
    the ones that were there before, and the template is kept. *)
Theorem Add_stores_under_name
    (s s' : RuleSet) (p : any) (name : string) (vs : list Validator) :
  RuleSet_Add s p name vs = Return s' →
  base s' = base s
  ∧ (∃ r, lookup_rule s' name = Some r ∧ Name r = name ∧ Validators r = vs)
  ∧ (∀ other, other ≠ name → lookup_rule s' other = lookup_rule s other)
  ∧ (∀ other, is_Some (lookup_rule s other) → is_Some (lookup_rule s' other)).
Proof.
  intros Hadd. destruct (RuleSet_Add_inv _ _ _ _ _ Hadd) as (f & _ & ->).
  unfold lookup_rule. cbn [base rules default from_option id].
  split; [reflexivity |]. split; [| split].
  - eexists. rewrite lookup_insert_eq. repeat split.
  - intros other Hne. apply lookup_insert_ne. congruence.
  - intros other Hsome. destruct (decide (name = other)) as [-> | Hne].
    + rewrite lookup_insert_eq. eauto.
    + rewrite lookup_insert_ne by exact Hne. exact Hsome.
Qed.

(** Registering the field [Body] of the example under a new name. *)
Lemma Add_stores_under_name_witness :
  ∃ s', RuleSet_Add example_rules
          (reflect.Ptr 0xc000012010 None) "body-size"
          [MaxLengthValidator_Validator 2%positive]
        = Return s'
        ∧ (Index <$> lookup_rule s' "body-size") = Some [1%nat]
        ∧ (Name <$> lookup_rule s' "title") = Some "title".
Proof.
  set (s' := {| base := base example_rules;
                rules := Some (<["body-size" :=
                                 {| Name := "body-size";
                                    Validators :=
                                      [MaxLengthValidator_Validator 2%positive];
                                    Offset := 16;
                                    Index := [1%nat] |}]>
                                 (default ∅ (rules example_rules))) |}).
  assert (Hadd : RuleSet_Add example_rules
                   (reflect.Ptr 0xc000012010 None) "body-size"
                   [MaxLengthValidator_Validator 2%positive]
                 = Return s') by reflexivity.
  exists s'. split; [exact Hadd |].
  destruct (Add_stores_under_name _ _ _ _ _ Hadd)
    as (_ & _ & Hother & _).
  split; [reflexivity |].
  rewrite (Hother "title") by discriminate. reflexivity.
Defined.

(** X2. Registering twice under one name keeps the last registration:
    after two calls of [Add] with the same name, the rule under that name
    has the validators of the second call, the number of rules is the one
    after the first call, and the rules under other names are those of
    the rule set before the two calls. *)
Theorem Add_last_registration_wins
    (s s1 s2 : RuleSet) (p1 p2 : any) (name : string)
    (vs1 vs2 : list Validator) :
  RuleSet_Add s p1 name vs1 = Return s1 →
  RuleSet_Add s1 p2 name vs2 = Return s2 →
  (∃ r, lookup_rule s2 name = Some r ∧ Name r = name ∧ Validators r = vs2)
  ∧ length (entries s2) = length (entries s1)
  ∧ (∀ other, other ≠ name → lookup_rule s2 other = lookup_rule s other).
Proof.
  intros H1 H2.
  destruct (RuleSet_Add_inv _ _ _ _ _ H1) as (f1 & _ & ->).
  destruct (RuleSet_Add_inv _ _ _ _ _ H2) as (f2 & _ & ->).
  unfold lookup_rule, entries. cbn [base rules default from_option id].
  split; [| split].
  - eexists. rewrite lookup_insert_eq. repeat split.
  - rewrite insert_insert_eq, !length_map_to_list, !map_size_insert.
    reflexivity.
  - intros other Hne. rewrite !lookup_insert_ne by congruence. reflexivity.
Qed.

(** The rule "title" of the example, registered again on the field
    [Body] with another validator. *)
Lemma Add_last_registration_wins_witness :
  ∃ s1 s2,
    RuleSet_Add example_rules (reflect.Ptr 0xc000012000 None) "title"
      [NotEmpty] = Return s1
    ∧ RuleSet_Add s1 (reflect.Ptr 0xc000012010 None) "title"
        [MaxLengthValidator_Validator 2%positive] = Return s2
    ∧ length (entries s2) = length (entries s1)
    ∧ (Index <$> lookup_rule s2 "title") = Some [1%nat].
Proof.
  set (s1 := {| base := base example_rules;
                rules := Some (<["title" := rule_title]>
                                 (default ∅ (rules example_rules))) |}).
  set (s2 := {| base := base s1;
                rules := Some (<["title" :=
                                 {| Name := "title";
                                    Validators :=
                                      [MaxLengthValidator_Validator 2%positive];
                                    Offset := 16; Index := [1%nat] |}]>
                                 (default ∅ (rules s1))) |}).
  assert (H1 : RuleSet_Add example_rules (reflect.Ptr 0xc000012000 None)
                 "title" [NotEmpty] = Return s1) by reflexivity.
  assert (H2 : RuleSet_Add s1 (reflect.Ptr 0xc000012010 None) "title"
                 [MaxLengthValidator_Validator 2%positive] = Return s2)
    by reflexivity.
  exists s1, s2. split; [exact H1 |]. split; [exact H2 |].
  split; [exact (proj1 (proj2 (Add_last_registration_wins _ _ _ _ _ _ _ _
                                 H1 H2))) |].
  reflexivity.
Defined.

(** X3. [Add] needs an address and a struct template: when [p] is nil,
    an integer or a struct passed by value, or when the template is no
    pointer to a struct, [Add] panics inside package reflect, and not
    with the panic of [lookupStructField]. *)
Theorem Add_needs_pointers
    (s : RuleSet) (p : any) (name : string) (vs : list Validator) :
  (p = reflect.Nil
   ∨ (∃ n, p = reflect.Int n)
   ∨ (∃ visible fs, p = reflect.Struct visible fs))
  ∨ (∀ addr visible fs,
       base s ≠ reflect.Ptr addr (Some (reflect.Struct visible fs))) →
  RuleSet_Add s p name vs = Panics PanicReflect.
Proof.
  intros H. unfold RuleSet_Add, RuleSet_offsetOf, lookupStructField.
  destruct (base s) as [| T0 s0 | n0 | vis0 fs0 | bp [[| T1 s1 | n1 | vis fs | a e] |]]
    eqn:Hbase; cbn; try reflexivity;
    destruct p as [| T s' | n | visible' fs' | pp elem]; cbn; try reflexivity.
  destruct H as [[H | [[n H] | (visible' & fs' & H)]] | H];
    try discriminate H.
  destruct (H bp vis fs eq_refl).
Qed.

(** The article in the place of the address of one of its fields, and a
    template that is a pointer to a string. *)
Lemma Add_needs_pointers_witness :
  RuleSet_Add example_rules (article "" "") "title" [NotEmpty]
  = Panics PanicReflect
  ∧ RuleSet_Add
      {| base := reflect.Ptr 0xc000012000 (Some (reflect.Str "string" ""));
         rules := None |}
      (reflect.Ptr 0xc000012000 (Some (reflect.Str "string" "")))
      "title" [NotEmpty]
    = Panics PanicReflect.
Proof.
  split.
  - apply Add_needs_pointers. left. right. right. eexists _, _. reflexivity.
  - apply Add_needs_pointers. right. intros addr visible fs. discriminate.
Defined.




(** ** Validation: when it returns, and when it returns nil *)

Lemma rule_Validate_loop_returns_inv h name ps v errs out :
  rule_Validate_loop h name ps v errs = Return out →
  Forall (λ p, returns (Validate p h v)) ps.
Proof.
  revert errs. induction ps as [| p ps IH]; intros errs;
    cbn [rule_Validate_loop]; [constructor |].
  destruct (Validate p h v) as [res | why] eqn:Hp; cbn [mbind outcome_bind];
    [| discriminate].
  intros Hout. constructor; [exists res; exact Hp |].
  destruct res; eapply IH; exact Hout.
Qed.

Lemma RuleSet_Validate_loop_returns_inv h p order errs out :
  RuleSet_Validate_loop h p order errs = Return out → well_typed h p order.
Proof.
  revert errs. induction order as [| [n r] order IH]; intros errs;
    cbn [RuleSet_Validate_loop].
  - intros _ n r Hin. inversion Hin.
  - destruct (fieldOf p r) as [x |] eqn:Hx; cbn [mbind outcome_bind];
      [| discriminate].
    destruct (rule_Validate h r x) as [res |] eqn:Hr;
      cbn [mbind outcome_bind]; [| discriminate].
    intros Hout n' r' Hin. apply elem_of_cons in Hin as [[= -> ->] | Hin].
    + exists x. split; [exact Hx |]. apply Forall_forall.
      unfold rule_Validate in Hr.
      destruct (rule_Validate_loop h (Name r) (Validators r) x []) as [o |]
        eqn:Hloop; [| discriminate].
      exact (rule_Validate_loop_returns_inv _ _ _ _ _ _ Hloop).
    + destruct res; exact (IH _ Hout n' r' Hin).
Qed.

Lemma RuleSet_Validate_returns h order v :
  returns (RuleSet_Validate h order v) ↔ well_typed h (indirect v) order.
Proof.
  split.
  - intros [res Hres]. rewrite RuleSet_Validate_indirect in Hres.
    destruct (RuleSet_Validate_loop h (indirect v) order []) as [out |]
      eqn:Hloop; [| discriminate].
    exact (RuleSet_Validate_loop_returns_inv _ _ _ _ _ Hloop).
  - intros Hwt. eexists. apply RuleSet_Validate_spec, Hwt.
Qed.

(** X5. [Validate] of a rule set returns, and does not panic, exactly
    when every rule finds its field in the record and every validator of
    the rule returns on the value of the field.  Whether it returns does
    not depend on the order in which the rules are visited. *)
Theorem Validate_returns_iff_well_typed
    (h : heap) (order order' : list (string * rule)) (v : any) :
  order ≡ₚ order' →
  (returns (RuleSet_Validate h order v) ↔ well_typed h (indirect v) order)
  ∧ (returns (RuleSet_Validate h order v)
     ↔ returns (RuleSet_Validate h order' v)).
Proof.
  intros Hperm. split; [apply RuleSet_Validate_returns |].
  rewrite !RuleSet_Validate_returns. split.
  - apply well_typed_Permutation. symmetry. exact Hperm.
  - apply well_typed_Permutation. exact Hperm.
Qed.

Lemma Validate_returns_iff_well_typed_witness :
  example_order ≡ₚ reverse example_order
  ∧ returns (RuleSet_Validate example_heap (reverse example_order)
               (article "" "text")).
Proof.
  assert (Hperm : example_order ≡ₚ reverse example_order)
    by (symmetry; apply reverse_Permutation).
  split; [exact Hperm |].
  destruct (Validate_returns_iff_well_typed example_heap example_order
              (reverse example_order) (article "" "text") Hperm)
    as [Hwt Hiff].
  apply Hiff, Hwt, example_well_typed.
Defined.

(** X6. Success means that every rule is satisfied: [Validate] of a rule
    set returns nil exactly when every rule finds its field and every
    validator of every rule returns nil on it. *)
Theorem Validate_nil_iff_satisfied
    (h : heap) (order : list (string * rule)) (v : any) :
  RuleSet_Validate h order v = Return None ↔ satisfied h (indirect v) order.
Proof.
  split.
  - intros Hnil.
    assert (Hwt : well_typed h (indirect v) order)
      by (apply RuleSet_Validate_returns; eexists; exact Hnil).
    rewrite (RuleSet_Validate_spec _ _ _ Hwt), errors_Join_Some in Hnil.
    destruct (omap (rule_result h (indirect v)) order) as [| e es] eqn:Hres;
      [| discriminate].
    intros n r Hin. destruct (Hwt n r Hin) as (x & Hx & Hqs).
    exists x. split; [exact Hx |]. intros q Hq.
    assert (Hrr : rule_result h (indirect v) (n, r) = None).
    { destruct (rule_result h (indirect v) (n, r)) as [e |] eqn:E;
        [| reflexivity].
      assert (He : e ∈ omap (rule_result h (indirect v)) order)
        by (apply list_elem_of_omap; eauto).
      rewrite Hres in He. inversion He. }
    unfold rule_result in Hrr. cbn [snd] in Hrr.
    rewrite Hx, errors_Join_Some in Hrr.
    destruct (rule_failures h r x) as [| e es] eqn:Hrf; [| discriminate].
    destruct (Hqs q Hq) as [[err |] Hres']; [| exact Hres'].
    assert (He : fmt_Errorf h (Name r) err ∈ rule_failures h r x).
    { unfold rule_failures. apply list_elem_of_omap. exists q.
      split; [exact Hq |]. unfold failure. rewrite Hres'. reflexivity. }
    rewrite Hrf in He. inversion He.
  - intros Hsat.
    rewrite RuleSet_Validate_spec by (apply satisfied_well_typed, Hsat).
    rewrite rule_results_quiet by exact Hsat. reflexivity.
Qed.

Lemma indirect_flags (v : any) :
  reflect.flagStickyRO (indirect v) = false
  ∧ reflect.flagEmbedRO (indirect v) = false.
Proof. destruct v as [| | | | addr [x |]]; split; reflexivity. Qed.

(** X7. A rule on a field that is not exported makes [Validate] panic:
    when a rule of the rule set is bound to a field of the record itself
    (index path of length one) and that field is not exported,
    [Validate] does not return, whatever the field holds. *)
Theorem Validate_unexported_field_panics
    (h : heap) (order : list (string * rule)) (v : any)
    (n : string) (r : rule) (i : nat)
    (visible : list reflect.StructField) (fs : list (reflect.decl * any))
    (d : reflect.decl) (x : any) :
  (n, r) ∈ order →
  Index r = [i] →
  reflect.val (indirect v) = reflect.Struct visible fs →
  fs !! i = Some (d, x) →
  reflect.exported d = false →
  fieldOf (indirect v) r = Panics PanicReflect
  ∧ ∃ why, RuleSet_Validate h order v = Panics why.
Proof.
  intros Hin Hidx Hval Hfs Hexp.
  assert (Hfield : fieldOf (indirect v) r = Panics PanicReflect).
  { unfold fieldOf, reflect.FieldByIndex, reflect.Field. rewrite Hidx, Hval, Hfs.
    cbn [mbind outcome_bind]. unfold reflect.Interface.
    cbn [reflect.flagStickyRO reflect.flagEmbedRO]. rewrite Hexp.
    destruct (indirect_flags v) as [-> _].
    destruct (reflect.embedded d); reflexivity. }
  split; [exact Hfield |].
  destruct (RuleSet_Validate h order v) as [res | why] eqn:Hres;
    [| eexists; reflexivity].
  assert (Hwt : well_typed h (indirect v) order)
    by (apply RuleSet_Validate_returns; eexists; exact Hres).
  destruct (Hwt n r Hin) as (x' & Hx' & _). congruence.
Qed.

(** The rule "body" of the example on a record whose field [body] is not
    exported. *)
Lemma Validate_unexported_field_panics_witness :
  ∃ why,
    RuleSet_Validate example_heap example_order (note "hello" "text")
    = Panics why.
Proof.
  refine (proj2 (Validate_unexported_field_panics example_heap example_order
                   (note "hello" "text") "body" rule_body 1%nat article_fields
                   _ {| reflect.exported := false; reflect.embedded := false |}
                   (reflect.Str "string" "text") _ eq_refl eq_refl eq_refl
                   eq_refl)).
  apply elem_of_cons. by left.
Defined.

(** X8. [Validate] of a rule set follows one pointer and no more: a
    pointer to a record is validated as the record.  A value that is,
    after that one step, no struct (nil, a nil pointer, a pointer to a
    pointer, a string, an integer) makes [Validate] panic inside package
    reflect as soon as the rule set has a rule, and is accepted by a rule
    set without rules. *)
Theorem Validate_follows_one_pointer
    (h : heap) (order : list (string * rule)) (v : any) (addr : Z)
    (visible : list reflect.StructField) (fs : list (reflect.decl * any)) :
  (∀ visible' fs', reflect.val (indirect v) ≠ reflect.Struct visible' fs') →
  RuleSet_Validate h order (reflect.Ptr addr (Some (reflect.Struct visible fs)))
    = RuleSet_Validate h order (reflect.Struct visible fs)
  ∧ RuleSet_Validate h order v
    = match order with
      | [] => Return None
      | _ :: _ => Panics PanicReflect
      end.
Proof.
  intros Hv. split; [reflexivity |].
  rewrite RuleSet_Validate_indirect.
  destruct order as [| [n r] order]; [reflexivity |].
  cbn [RuleSet_Validate_loop].
  assert (Hfield : fieldOf (indirect v) r = Panics PanicReflect).
  { unfold fieldOf, reflect.FieldByIndex, reflect.Field.
    destruct (reflect.val (indirect v)) as [| T s | k | vis' fs' | a e] eqn:Hval;
      try (destruct (Index r) as [| i [| j l]]; reflexivity).
    destruct (Hv vis' fs' eq_refl). }
  rewrite Hfield. reflexivity.
Qed.

(** A pointer to a pointer to an article is not followed. *)
Lemma Validate_follows_one_pointer_witness :
  RuleSet_Validate example_heap example_order
    (reflect.Ptr 0xc000014000
       (Some (reflect.Ptr 0xc000012000 (Some (article "hello" "text")))))
  = Panics PanicReflect
  ∧ RuleSet_Validate example_heap [] reflect.Nil = Return None.
Proof.
  split.
  - refine (proj2 (Validate_follows_one_pointer example_heap example_order
                     _ 0 [] [] _)).
    intros visible' fs'. discriminate.
  - refine (proj2 (Validate_follows_one_pointer example_heap []
                     reflect.Nil 0 [] [] _)).
    intros visible' fs'. discriminate.
Defined.

(** ** The text of an aggregate *)

Lemma append_assoc (a b c : string) : (a +:+ b) +:+ c = a +:+ b +:+ c.
Proof.
  induction a as [| x a IH]; [reflexivity |].
  change (String x ((a +:+ b) +:+ c) = String x (a +:+ b +:+ c)).
  rewrite IH. reflexivity.
Qed.

Lemma concat_cons sep x (l : list string) :
  l ≠ [] → String.concat sep (x :: l) = x +:+ sep +:+ String.concat sep l.
Proof. destruct l; [congruence | reflexivity]. Qed.

Lemma concat_app sep (l1 l2 : list string) :
  l1 ≠ [] → l2 ≠ [] →
  String.concat sep (l1 ++ l2)
  = String.concat sep l1 +:+ sep +:+ String.concat sep l2.
Proof.
  intros H1 H2. induction l1 as [| x l1 IH]; [congruence |].
  destruct l1 as [| y l1].
  - cbn [app]. apply concat_cons, H2.
  - change ((x :: y :: l1) ++ l2) with (x :: ((y :: l1) ++ l2)).
    rewrite concat_cons by discriminate.
    rewrite IH by discriminate.
    rewrite (concat_cons sep x (y :: l1)) by discriminate.
    rewrite !append_assoc. reflexivity.
Qed.

Lemma mjoin_cons {A} (g : list A) (groups : list (list A)) :
  mjoin (g :: groups) = g ++ mjoin groups.
Proof. reflexivity. Qed.

Lemma concat_groups sep (groups : list (list string)) :
  Forall (λ g, g ≠ []) groups →
  String.concat sep (String.concat sep <$> groups)
  = String.concat sep (mjoin groups).
Proof.
  induction 1 as [| g groups Hg Hgs IH]; [reflexivity |].
  rewrite fmap_cons, mjoin_cons.
  destruct groups as [| g' groups].
  - cbn. rewrite app_nil_r. reflexivity.
  - rewrite concat_cons by (rewrite fmap_cons; discriminate).
    rewrite IH. symmetry. apply concat_app; [exact Hg |].
    rewrite mjoin_cons. apply Forall_cons in Hgs as [Hg' _].
    destruct g'; [congruence | discriminate].
Qed.

(** The text of a joined error is the texts of its members, one per
    line. *)
Lemma Error_joinError h errs msgs :
  errs ≠ [] →
  Forall2 (λ e m, Error h e = Return m) errs msgs →
  Error h (joinError errs) = Return (String.concat newline msgs).
Proof.
  intros Hne HF. destruct HF as [| e0 m0 rest msgs H0 Hrest]; [congruence |].
  cbn [Error]. rewrite H0. cbn [mbind outcome_bind]. clear H0 Hne.
  revert m0. induction Hrest as [| e1 m1 rest msgs H1 _ IH]; intros b;
    [reflexivity |].
  rewrite H1. cbn [mbind outcome_bind]. rewrite IH.
  f_equal. destruct msgs as [| m2 msgs]; [reflexivity |].
  rewrite (concat_cons newline b) by discriminate.
  rewrite !(concat_cons newline _ (m2 :: msgs)) by discriminate.
  rewrite !append_assoc. reflexivity.
Qed.

Lemma rule_failures_texts h h' r x :
  Forall2 (λ e m, Error h' e = Return m)
    (rule_failures h r x) (rule_texts h r x).
Proof.
  unfold rule_failures, rule_texts.
  induction (Validators r) as [| q qs IH]; [constructor |].
  cbn [omap list_omap]. destruct (failure h x q) as [err |];
    cbn [fmap option_fmap option_map]; [| exact IH].
  constructor; [reflexivity | exact IH].
Qed.

Lemma rule_results_texts h h' p order :
  ∃ groups,
    Forall (λ g : list string, g ≠ []) groups
    ∧ Forall2 (λ e g, Error h' e = Return (String.concat newline g))
        (omap (rule_result h p) order) groups
    ∧ mjoin groups = all_texts h p order.
Proof.
  unfold all_texts.
  induction order as [| nr order (groups & Hne & HF & Hjoin)].
  - exists []. repeat split; constructor.
  - rewrite bind_cons. cbn [omap list_omap]. unfold rule_result at 1.
    destruct (fieldOf p nr.2) as [x | why];
      [| exists groups; repeat split; assumption].
    pose proof (rule_failures_texts h h' nr.2 x) as Hrule.
    rewrite errors_Join_Some.
    destruct (rule_failures h nr.2 x) as [| e es] eqn:Hrf.
    + inversion Hrule as [Hts |]. exists groups. repeat split; assumption.
    + exists (rule_texts h nr.2 x :: groups). split; [| split].
      * constructor; [| exact Hne].
        inversion Hrule. discriminate.
      * constructor; [| exact HF].
        apply Error_joinError; [discriminate | exact Hrule].
      * rewrite mjoin_cons, Hjoin. reflexivity.
Qed.

Lemma RuleSet_Validate_text
    (h h' : heap) (order : list (string * rule)) (v : any) (err : error) :
  RuleSet_Validate h order v = Return (Some err) →
  Error h' err
    = Return (String.concat newline (all_texts h (indirect v) order))
  ∧ length (all_texts h (indirect v) order) = length (violations err)
  ∧ all_texts h (indirect v) order ≠ [].
Proof.
  intros Hres.
  assert (Hwt : well_typed h (indirect v) order)
    by (apply RuleSet_Validate_returns; eexists; exact Hres).
  rewrite (RuleSet_Validate_spec _ _ _ Hwt), errors_Join_Some in Hres.
  destruct (rule_results_texts h h' (indirect v) order)
    as (groups & Hne & HF & Hjoin).
  assert (Hlen : length (all_texts h (indirect v) order)
                 = length (all_failures h (indirect v) order)).
  { unfold all_texts, all_failures. clear.
    induction order as [| nr order IH]; [reflexivity |].
    rewrite !bind_cons, !length_app, IH. f_equal.
    destruct (fieldOf (indirect v) nr.2) as [x |]; [| reflexivity].
    symmetry. exact (Forall2_length _ _ _ (rule_failures_texts h h nr.2 x)). }
  destruct (omap (rule_result h (indirect v)) order) as [| e es] eqn:Hrr;
    [discriminate Hres |].
  injection Hres as <-.
  assert (Hviol : violations (joinError (e :: es))
                  = all_failures h (indirect v) order).
  { rewrite <- violations_rule_results, Hrr. reflexivity. }
  split; [| split].
  - assert (Hne' : e :: es ≠ []) by discriminate.
    assert (HF' : Forall2 (λ e0 m, Error h' e0 = Return m) (e :: es)
                    (String.concat newline <$> groups))
      by (apply Forall2_fmap_r; exact HF).
    rewrite (Error_joinError _ _ _ Hne' HF').
    rewrite concat_groups by exact Hne. rewrite Hjoin. reflexivity.
  - rewrite Hviol. exact Hlen.
  - rewrite <- Hjoin. inversion HF as [| ? g ? gs _ _ ]; subst.
    apply Forall_cons in Hne as [Hg _]. rewrite mjoin_cons.
    destruct g; [congruence | discriminate].
Qed.

(** X9. The text of the aggregate that [Validate] of a rule set returns
    has one line for every failing pair of a rule and a validator, in the
    order they were evaluated: the quoted name of the rule, a space and
    the text the validator's error had when it was found.  The text was
    fixed then: it is the same in whatever state the validators are when
    the aggregate is rendered. *)
Theorem Validate_text_one_line_per_failure
    (h h' : heap) (order : list (string * rule)) (v : any) (err : error) :
  RuleSet_Validate h order v = Return (Some err) →
  Error h' err
    = Return (String.concat newline (all_texts h (indirect v) order))
  ∧ length (all_texts h (indirect v) order) = length (violations err)
  ∧ all_texts h (indirect v) order ≠ [].
Proof. apply RuleSet_Validate_text. Qed.

(** An article without a title: two lines, also when rendered in a state
    without any validator. *)
Lemma Validate_text_one_line_per_failure_witness :
  ∃ err,
    RuleSet_Validate example_heap example_order (article "" "text")
    = Return (Some err)
    ∧ Error ∅ err
      = Return ("'title-size' the length must be no less than 3"
                  +:+ newline +:+ "'title' requires").
Proof.
  set (err := joinError
                [joinError
                   [wrapError "'title-size' the length must be no less than 3"
                      (MinLengthViolation
                         (MinLengthViolationError.mk "" 3 1%positive))];
                 joinError
                   [wrapError "'title' requires"
                      (RangeMinViolation (RangeMinViolationError.mk 1 0 ""))]]).
  assert (Hres : RuleSet_Validate example_heap example_order
                   (article "" "text") = Return (Some err)) by reflexivity.
  exists err. split; [exact Hres |].
  rewrite (proj1 (Validate_text_one_line_per_failure example_heap ∅ _ _ _
                    Hres)).
  reflexivity.
Defined.

(** ** The validators on values of another type, and their thresholds *)

Lemma assertString_other T v :
  (∀ s, v ≠ reflect.Str T s) → assertString T v = Panics PanicTypeAssertion.
Proof.
  intros Hv. destruct v as [| T' s | n | visible fs | addr elem];
    try reflexivity.
  unfold assertString. destruct (decide (T' = T)) as [-> | Hne];
    [destruct (Hv s eq_refl) | reflexivity].
Qed.

(** X10. A validator asserts the type it was made for: applied to a
    value whose dynamic type is not its string type [T] (nil, an integer,
    a struct, a pointer, or a string of a type with another name), each
    of the three length validators and the non-empty validator panics
    with the failed type assertion; it returns neither nil nor a
    violation. *)
Theorem validators_panic_on_other_types
    (h : heap) (r1 r2 r3 : loc)
    (v1 : MinLengthValidator.t) (v2 : MaxLengthValidator.t)
    (v3 : LengthValidator.t) (T : string) (v : any) :
  h !! r1 = Some (ObjMinLength v1) →
  h !! r2 = Some (ObjMaxLength v2) →
  h !! r3 = Some (ObjLength v3) →
  MinLengthValidator.T v1 = T →
  MaxLengthValidator.T v2 = T →
  LengthValidator.T v3 = T →
  (∀ s, v ≠ reflect.Str T s) →
  MinLengthValidator_Validate h r1 v = Panics PanicTypeAssertion
  ∧ MaxLengthValidator_Validate h r2 v = Panics PanicTypeAssertion
  ∧ LengthValidator_Validate h r3 v = Panics PanicTypeAssertion
  ∧ notEmptyValidator_Validate T v = Panics PanicTypeAssertion.
Proof.
  intros H1 H2 H3 T1 T2 T3 Hv.
  unfold MinLengthValidator_Validate, MaxLengthValidator_Validate,
    LengthValidator_Validate, notEmptyValidator_Validate,
    loadMinLength, loadMaxLength, loadLength.
  rewrite H1, H2, H3. cbn [mbind outcome_bind]. rewrite T1, T2, T3.
  rewrite (assertString_other T v Hv). repeat split.
Qed.

(** A string of the type [type title string] is no [string]. *)
Lemma validators_panic_on_other_types_witness :
  MinLengthValidator_Validate example_heap 1%positive
    (reflect.Str "title" "hello") = Panics PanicTypeAssertion
  ∧ Validate NotEmpty example_heap (reflect.Int 7) = Panics PanicTypeAssertion.
Proof.
  split.
  - refine (proj1 (validators_panic_on_other_types example_heap 1%positive
                     2%positive 3%positive
                     (MinLengthValidator.mk "string" 3 None)
                     (MaxLengthValidator.mk "string" 2 None)
                     (LengthValidator.mk "string" 2 4 None) "string"
                     (reflect.Str "title" "hello")
                     eq_refl eq_refl eq_refl eq_refl eq_refl eq_refl _)).
    intros s. discriminate.
  - refine (proj2 (proj2 (proj2
             (validators_panic_on_other_types example_heap 1%positive
                2%positive 3%positive
                (MinLengthValidator.mk "string" 3 None)
                (MaxLengthValidator.mk "string" 2 None)
                (LengthValidator.mk "string" 2 4 None) "string"
                (reflect.Int 7)
                eq_refl eq_refl eq_refl eq_refl eq_refl eq_refl _)))).
    intros s. discriminate.
Defined.

Lemma runeCount_nonneg s : 0 ≤ runeCount s.
Proof. unfold runeCount. lia. Qed.

Lemma runeCount_zero s : runeCount s = 0 ↔ s = "".
Proof.
  split; [| intros ->; reflexivity].
  destruct s as [| a s]; [reflexivity |].
  pose proof (runeCount_nonempty a s). lia.
Qed.

Lemma MinLength_Validate h T n s :
  MinLengthValidator_Validate (MinLength T n h).2 (MinLength T n h).1
      (reflect.Str T s)
  = Return (if runeCount s <? n
            then Some (MinLengthViolation
                         (MinLengthViolationError.mk s n (MinLength T n h).1))
            else None).
Proof.
  unfold MinLength.
  exact (MinLengthValidator_Validate_at _ _ _ s (alloc_lookup h _)).
Qed.

Lemma MaxLength_Validate h T n s :
  MaxLengthValidator_Validate (MaxLength T n h).2 (MaxLength T n h).1
      (reflect.Str T s)
  = Return (if n <? runeCount s
            then Some (MaxLengthViolation
                         (MaxLengthViolationError.mk s n (MaxLength T n h).1))
            else None).
Proof.
  unfold MaxLength.
  exact (MaxLengthValidator_Validate_at _ _ _ s (alloc_lookup h _)).
Qed.

Lemma Length_Validate h T min max s :
  LengthValidator_Validate (Length T min max h).2 (Length T min max h).1
      (reflect.Str T s)
  = Return (if (min <=? runeCount s) && (runeCount s <=? max)
            then None
            else Some (LengthViolation
                         (LengthViolationError.mk s min max
                            (Length T min max h).1))).
Proof.
  unfold Length.
  exact (LengthValidator_Validate_at _ _ _ s (alloc_lookup h _)).
Qed.

(** X11. The length validators compare with the threshold as it is; a
    threshold of zero or less is no sentinel for "unlimited".
    [MinLength(n)] with [n <= 0] accepts every string; [MaxLength(n)]
    with [n < 0] rejects every string, the empty one too; [MaxLength(0)]
    accepts the empty string only; [Length(min, max)] with [max < min]
    rejects every string. *)
Theorem thresholds_are_compared_as_given
    (h : heap) (T : string) (n1 n2 min max : Z) (s : string) :
  n1 ≤ 0 →
  n2 < 0 →
  max < min →
  MinLengthValidator_Validate (MinLength T n1 h).2 (MinLength T n1 h).1
      (reflect.Str T s) = Return None
  ∧ MaxLengthValidator_Validate (MaxLength T n2 h).2 (MaxLength T n2 h).1
      (reflect.Str T s)
    = Return (Some (MaxLengthViolation
                      (MaxLengthViolationError.mk s n2 (MaxLength T n2 h).1)))
  ∧ (MaxLengthValidator_Validate (MaxLength T 0 h).2 (MaxLength T 0 h).1
         (reflect.Str T s) = Return None
     ↔ s = "")
  ∧ LengthValidator_Validate (Length T min max h).2 (Length T min max h).1
      (reflect.Str T s)
    = Return (Some (LengthViolation
                      (LengthViolationError.mk s min max
                         (Length T min max h).1))).
Proof.
  intros Hn1 Hn2 Hmm. pose proof (runeCount_nonneg s) as Hc.
  rewrite MinLength_Validate, !MaxLength_Validate, Length_Validate.
  split; [| split; [| split]].
  - rewrite (proj2 (Z.ltb_ge _ _)) by lia. reflexivity.
  - rewrite (proj2 (Z.ltb_lt _ _)) by lia. reflexivity.
  - rewrite <- runeCount_zero.
    destruct (Z.ltb_spec 0 (runeCount s)); split; intros; try discriminate;
      try reflexivity; lia.
  - replace ((min <=? runeCount s) && (runeCount s <=? max)) with false;
      [reflexivity |].
    symmetry. apply andb_false_iff.
    destruct (Z.leb_spec min (runeCount s)); [right | left; reflexivity].
    apply Z.leb_gt. lia.
Qed.

Lemma thresholds_are_compared_as_given_witness :
  MaxLengthValidator_Validate (MaxLength "string" (-1) ∅).2
      (MaxLength "string" (-1) ∅).1 (reflect.Str "string" "")
    = Return (Some (MaxLengthViolation
                      (MaxLengthViolationError.mk "" (-1)
                         (MaxLength "string" (-1) ∅).1)))
  ∧ MinLengthValidator_Validate (MinLength "string" 0 ∅).2
      (MinLength "string" 0 ∅).1 (reflect.Str "string" "")
    = Return None.
Proof.
  pose proof (thresholds_are_compared_as_given ∅ "string" 0 (-1) 4 2 ""
                ltac:(lia) ltac:(lia) ltac:(lia)) as H.
  split; [exact (proj1 (proj2 H)) | exact (proj1 H)].
Defined.

(** X12. How the validators relate: [NotEmpty] accepts exactly the
    strings that [MinLength(1)] accepts, and [Length(min, max)] accepts
    exactly the strings that both [MinLength(min)] and [MaxLength(max)]
    accept. *)
Theorem validators_relate
    (h : heap) (T : string) (min max : Z) (s : string) :
  (Validate NotEmpty h (reflect.Str "string" s) = Return None
   ↔ MinLengthValidator_Validate (MinLength "string" 1 h).2
       (MinLength "string" 1 h).1 (reflect.Str "string" s) = Return None)
  ∧ (LengthValidator_Validate (Length T min max h).2 (Length T min max h).1
         (reflect.Str T s) = Return None
     ↔ MinLengthValidator_Validate (MinLength T min h).2 (MinLength T min h).1
         (reflect.Str T s) = Return None
       ∧ MaxLengthValidator_Validate (MaxLength T max h).2
           (MaxLength T max h).1 (reflect.Str T s) = Return None).
Proof.
  rewrite !MinLength_Validate, MaxLength_Validate, Length_Validate.
  unfold NotEmpty. cbn [Validate]. rewrite notEmptyValidator_Validate_at.
  pose proof (runeCount_zero s) as Hz. pose proof (runeCount_nonneg s) as Hc.
  split.
  - destruct (decide (s = "")) as [Hs | Hs], (Z.ltb_spec (runeCount s) 1);
      split; intros; try discriminate; try reflexivity.
    + apply Hz in Hs. lia.
    + destruct Hs. apply Hz. lia.
  - destruct (Z.leb_spec min (runeCount s)), (Z.leb_spec (runeCount s) max),
      (Z.ltb_spec (runeCount s) min), (Z.ltb_spec max (runeCount s));
      cbn [andb]; try lia; split; try intros [? ?]; intros;
      try discriminate; auto.
Qed.

(** ** The length in code points and the length in bytes *)

Lemma bytes_length s : length (utf8.bytes s) = String.length s.
Proof.
  unfold utf8.bytes. rewrite length_fmap.
  induction s as [| a s IH]; [reflexivity |]. cbn. f_equal. exact IH.
Qed.

Lemma decoderune_width (s : list Z) :
  (1 ≤ (utf8.decoderune s).2 ≤ 4)%nat.
Proof.
  unfold utf8.decoderune.
  repeat match goal with
         | |- context [match ?x with _ => _ end] => destruct x
         end; cbn [snd]; lia.
Qed.

Lemma rangeRunes_length fuel (s : list Z) :
  (length (utf8.rangeRunes fuel s) ≤ length s)%nat
  ∧ ((length s ≤ fuel)%nat →
     (length s ≤ 4 * length (utf8.rangeRunes fuel s))%nat).
Proof.
  revert s. induction fuel as [| fuel IH]; intros s.
  - destruct s; cbn; lia.
  - destruct s as [| c tl]; [cbn; lia |].
    cbn [utf8.rangeRunes].
    destruct (c <? utf8.runeSelf).
    + destruct (IH tl) as [Hle Hge]. cbn [length]. lia.
    + pose proof (decoderune_width (c :: tl)) as Hw.
      destruct (utf8.decoderune (c :: tl)) as [r w]. cbn [snd] in Hw.
      destruct (IH (drop w (c :: tl))) as [Hle Hge].
      rewrite length_drop in Hle, Hge. cbn [length] in *. lia.
Qed.

Lemma rangeRunes_ascii fuel (s : list Z) :
  Forall (λ b, b < utf8.runeSelf) s → (length s ≤ fuel)%nat →
  utf8.rangeRunes fuel s = s.
Proof.
  intros Hs. revert fuel. induction Hs as [| c tl Hc _ IH]; intros fuel Hfuel.
  - destruct fuel; reflexivity.
  - destruct fuel as [| fuel]; [cbn in Hfuel; lia |].
    cbn [utf8.rangeRunes]. rewrite (proj2 (Z.ltb_lt _ _) Hc).
    f_equal. apply IH. cbn in Hfuel. lia.
Qed.

(** X13. The length the validators measure lies between a quarter of the
    length in bytes and the length in bytes, and is the length in bytes
    for a string of ASCII characters.  So a string of at most [n] bytes
    always satisfies [MaxLength(n)], and a string of fewer than [n] bytes
    never satisfies [MinLength(n)]. *)
Theorem rune_count_between_bytes (h : heap) (T : string) (s : string) :
  runeCount s ≤ Z.of_nat (String.length s) ≤ 4 * runeCount s
  ∧ (Forall (λ b, b < 0x80) (utf8.bytes s) →
     runeCount s = Z.of_nat (String.length s))
  ∧ (∀ n, Z.of_nat (String.length s) ≤ n →
       MaxLengthValidator_Validate (MaxLength T n h).2 (MaxLength T n h).1
         (reflect.Str T s) = Return None)
  ∧ (∀ n, Z.of_nat (String.length s) < n →
       MinLengthValidator_Validate (MinLength T n h).2 (MinLength T n h).1
         (reflect.Str T s)
       = Return (Some (MinLengthViolation
                         (MinLengthViolationError.mk s n (MinLength T n h).1)))).
Proof.
  assert (Hb : runeCount s ≤ Z.of_nat (String.length s) ≤ 4 * runeCount s).
  { unfold runeCount, utf8.stringtoslicerune.
    destruct (rangeRunes_length (length (utf8.bytes s)) (utf8.bytes s))
      as [Hle Hge].
    rewrite <- bytes_length. lia. }
  split; [exact Hb |]. split; [| split].
  - intros Hascii. unfold runeCount, utf8.stringtoslicerune.
    rewrite rangeRunes_ascii by (try exact Hascii; lia).
    rewrite bytes_length. reflexivity.
  - intros n Hn. rewrite MaxLength_Validate.
    rewrite (proj2 (Z.ltb_ge _ _)) by lia. reflexivity.
  - intros n Hn. rewrite MinLength_Validate.
    rewrite (proj2 (Z.ltb_lt _ _)) by lia. reflexivity.
Qed.

(** ** Configured validators *)

Lemma MinLength_same_acceptance (h h' : heap) r r' a b :
  h !! r = Some (ObjMinLength a) →
  h' !! r' = Some (ObjMinLength b) →
  MinLengthValidator.T b = MinLengthValidator.T a →
  MinLengthValidator.min b = MinLengthValidator.min a →
  same_acceptance (MinLengthValidator_Validate h' r')
    (MinLengthValidator_Validate h r).
Proof.
  intros Hr Hr' HT Hmin v.
  unfold MinLengthValidator_Validate, loadMinLength.
  rewrite Hr, Hr'. cbn [mbind outcome_bind]. rewrite HT, Hmin.
  destruct (assertString _ v) as [s |]; cbn [mbind outcome_bind];
    [| split; reflexivity].
  destruct (_ <? _); split; split; intros H; try discriminate H;
    try reflexivity; eexists; reflexivity.
Qed.

Lemma MaxLength_same_acceptance (h h' : heap) r r' a b :
  h !! r = Some (ObjMaxLength a) →
  h' !! r' = Some (ObjMaxLength b) →
  MaxLengthValidator.T b = MaxLengthValidator.T a →
  MaxLengthValidator.max b = MaxLengthValidator.max a →
  same_acceptance (MaxLengthValidator_Validate h' r')
    (MaxLengthValidator_Validate h r).
Proof.
  intros Hr Hr' HT Hmax v.
  unfold MaxLengthValidator_Validate, loadMaxLength.
  rewrite Hr, Hr'. cbn [mbind outcome_bind]. rewrite HT, Hmax.
  destruct (assertString _ v) as [s |]; cbn [mbind outcome_bind];
    [| split; reflexivity].
  destruct (_ >? _); split; split; intros H; try discriminate H;
    try reflexivity; eexists; reflexivity.
Qed.

Lemma Length_same_acceptance (h h' : heap) r r' a b :
  h !! r = Some (ObjLength a) →
  h' !! r' = Some (ObjLength b) →
  LengthValidator.T b = LengthValidator.T a →
  LengthValidator.min b = LengthValidator.min a →
  LengthValidator.max b = LengthValidator.max a →
  same_acceptance (LengthValidator_Validate h' r')
    (LengthValidator_Validate h r).
Proof.
  intros Hr Hr' HT Hmin Hmax v.
  unfold LengthValidator_Validate, loadLength.
  rewrite Hr, Hr'. cbn [mbind outcome_bind]. rewrite HT, Hmin, Hmax.
  destruct (assertString _ v) as [s |]; cbn [mbind outcome_bind];
    [| split; reflexivity].
  destruct (_ || _); split; split; intros H; try discriminate H;
    try reflexivity; eexists; reflexivity.
Qed.

Lemma alloc_configured validate (h : heap) r o :
  same_acceptance (validate (alloc h o).2 (alloc h o).1) (validate h r) →
  (∀ v, validate (alloc h o).2 r v = validate h r v) →
  configured_accepts_same validate h r (Return (alloc h o)).
Proof.
  intros Hsame Hframe. exists (alloc h o).1, (alloc h o).2.
  split; [reflexivity |]. split; assumption.
Qed.

(** X14. Attaching a printer changes what is printed, not what is
    accepted: the validator that [WithPrinter] or [WithPrinterFunc]
    returns accepts exactly the values the receiver accepts and panics on
    exactly the values the receiver panics on, and the receiver validates
    after the call as it did before. *)
Theorem configuring_keeps_acceptance
    (h : heap) (r1 r2 r3 : loc)
    (v1 : MinLengthValidator.t) (v2 : MaxLengthValidator.t)
    (v3 : LengthValidator.t)
    (p1 : MinLengthViolationError.t → string)
    (p2 : MaxLengthViolationError.t → string)
    (p3 : LengthViolationError.t → string)
    (fn1 fn2 : Z → string) (fn3 : Z → Z → string) :
  h !! r1 = Some (ObjMinLength v1) →
  h !! r2 = Some (ObjMaxLength v2) →
  h !! r3 = Some (ObjLength v3) →
  configured_accepts_same MinLengthValidator_Validate h r1
    (MinLengthValidator_WithPrinter h r1 p1)
  ∧ configured_accepts_same MinLengthValidator_Validate h r1
      (MinLengthValidator_WithPrinterFunc h r1 fn1)
  ∧ configured_accepts_same MaxLengthValidator_Validate h r2
      (MaxLengthValidator_WithPrinter h r2 p2)
  ∧ configured_accepts_same MaxLengthValidator_Validate h r2
      (MaxLengthValidator_WithPrinterFunc h r2 fn2)
  ∧ configured_accepts_same LengthValidator_Validate h r3
      (LengthValidator_WithPrinter h r3 p3)
  ∧ configured_accepts_same LengthValidator_Validate h r3
      (LengthValidator_WithPrinterFunc h r3 fn3).
Proof.
  intros H1 H2 H3.
  unfold MinLengthValidator_WithPrinter, MinLengthValidator_WithPrinterFunc,
    MaxLengthValidator_WithPrinter, MaxLengthValidator_WithPrinterFunc,
    LengthValidator_WithPrinter, LengthValidator_WithPrinterFunc,
    loadMinLength, loadMaxLength, loadLength.
  rewrite H1, H2, H3. cbn [mbind outcome_bind]. cbv zeta.
  repeat split;
    (apply alloc_configured;
     [ first [ eapply MinLength_same_acceptance
             | eapply MaxLength_same_acceptance
             | eapply Length_same_acceptance ];
       first [ eassumption | apply alloc_lookup | reflexivity ]
     | intros v;
       unfold MinLengthValidator_Validate, MaxLengthValidator_Validate,
         LengthValidator_Validate, loadMinLength, loadMaxLength, loadLength;
       rewrite (alloc_frame h _ _ _ H1) || rewrite (alloc_frame h _ _ _ H2)
         || rewrite (alloc_frame h _ _ _ H3);
       rewrite ?H1, ?H2, ?H3; reflexivity ]).
Qed.

(** On [example_heap], the validator that [WithPrinterFunc] returns for
    [MinLength(3)] accepts what [MinLength(3)] accepts. *)
Lemma configuring_keeps_acceptance_witness :
  configured_accepts_same MinLengthValidator_Validate example_heap 1%positive
    (MinLengthValidator_WithPrinterFunc example_heap 1%positive
       (λ min, "too short")).
Proof.
  exact (proj1 (proj2
           (configuring_keeps_acceptance example_heap 1%positive 2%positive
              3%positive
              (MinLengthValidator.mk "string" 3 None)
              (MaxLengthValidator.mk "string" 2 None)
              (LengthValidator.mk "string" 2 4 None)
              (λ e, "min") (λ e, "max") (λ e, "range")
              (λ min, "too short") (λ max, "too long")
              (λ min max, "out of range")
              eq_refl eq_refl eq_refl))).
Defined.

Lemma fmt_error_MinLength (h : heap) e v :
  h !! MinLengthViolationError.rule e = Some (ObjMinLength v) →
  fmt_error h (MinLengthViolation e)
  = match MinLengthValidator.p v with
    | Some p => p e
    | None => minLengthViolationPrinter_Print e
    end.
Proof.
  intros Hv. unfold fmt_error. cbn [Error].
  unfold MinLengthViolationError_Error, loadMinLength. rewrite Hv.
  cbn [mbind outcome_bind]. destruct (MinLengthValidator.p v); reflexivity.
Qed.

Lemma fmt_error_MaxLength (h : heap) e v :
  h !! MaxLengthViolationError.rule e = Some (ObjMaxLength v) →
  fmt_error h (MaxLengthViolation e)
  = match MaxLengthValidator.p v with
    | Some p => p e
    | None => maxLengthViolationPrinter_Print e
    end.
Proof.
  intros Hv. unfold fmt_error. cbn [Error].
  unfold MaxLengthViolationError_Error, loadMaxLength. rewrite Hv.
  cbn [mbind outcome_bind]. destruct (MaxLengthValidator.p v); reflexivity.
Qed.

Lemma fmt_error_Length (h : heap) e v :
  h !! LengthViolationError.rule e = Some (ObjLength v) →
  fmt_error h (LengthViolation e)
  = match LengthValidator.p v with
    | Some p => p e
    | None => lengthViolationPrinter_Print e
    end.
Proof.
  intros Hv. unfold fmt_error. cbn [Error].
  unfold LengthViolationError_Error, loadLength. rewrite Hv.
  cbn [mbind outcome_bind]. destruct (LengthValidator.p v); reflexivity.
Qed.

(** X15. From the factory to the text.  A rule that holds the validator
    [MinLength(n).WithPrinterFunc(fn)] and, after it, the validator
    [MinLength(n)] it was made from, applied to a string that is too
    short, returns an aggregate of two violations: the first reads the
    quoted rule name and [fn(n)], the second the quoted rule name and the
    default text with [n].  The same holds for [MaxLength(n)] with a
    string that is too long and for [Length(min, max)] with a string that
    is outside the range, where [fn] receives [min] and [max]. *)
Theorem configured_and_plain_validator_in_a_rule
    (h : heap) (T name : string) (n min max : Z)
    (fn : Z → string) (fn2 : Z → Z → string) (s1 s2 s3 : string) :
  runeCount s1 < n →
  n < runeCount s2 →
  runeCount s3 < min ∨ max < runeCount s3 →
  (∃ r' h',
     MinLengthValidator_WithPrinterFunc (MinLength T n h).2
       (MinLength T n h).1 fn = Return (r', h')
     ∧ rule_Validate h'
         {| Name := name;
            Validators := [MinLengthValidator_Validator r';
                           MinLengthValidator_Validator (MinLength T n h).1];
            Offset := 0; Index := [] |}
         (reflect.Str T s1)
       = Return (Some (joinError
           [wrapError ("'" +:+ name +:+ "' " +:+ fn n)
              (MinLengthViolation (MinLengthViolationError.mk s1 n r'));
            wrapError ("'" +:+ name +:+ "' "
                         +:+ "the length must be no less than " +:+ fmt_int n)
              (MinLengthViolation
                 (MinLengthViolationError.mk s1 n (MinLength T n h).1))])))
  ∧ (∃ r' h',
       MaxLengthValidator_WithPrinterFunc (MaxLength T n h).2
         (MaxLength T n h).1 fn = Return (r', h')
       ∧ rule_Validate h'
           {| Name := name;
              Validators := [MaxLengthValidator_Validator r';
                             MaxLengthValidator_Validator (MaxLength T n h).1];
              Offset := 0; Index := [] |}
           (reflect.Str T s2)
         = Return (Some (joinError
             [wrapError ("'" +:+ name +:+ "' " +:+ fn n)
                (MaxLengthViolation (MaxLengthViolationError.mk s2 n r'));
              wrapError ("'" +:+ name +:+ "' "
                           +:+ "the length must be no greater than "
                           +:+ fmt_int n)
                (MaxLengthViolation
                   (MaxLengthViolationError.mk s2 n (MaxLength T n h).1))])))
  ∧ (∃ r' h',
       LengthValidator_WithPrinterFunc (Length T min max h).2
         (Length T min max h).1 fn2 = Return (r', h')
       ∧ rule_Validate h'
           {| Name := name;
              Validators := [LengthValidator_Validator r';
                             LengthValidator_Validator (Length T min max h).1];
              Offset := 0; Index := [] |}
           (reflect.Str T s3)
         = Return (Some (joinError
             [wrapError ("'" +:+ name +:+ "' " +:+ fn2 min max)
                (LengthViolation (LengthViolationError.mk s3 min max r'));
              wrapError ("'" +:+ name +:+ "' "
                           +:+ "the length must be in range(" +:+ fmt_int min
                           +:+ " ... " +:+ fmt_int max +:+ ")")
                (LengthViolation
                   (LengthViolationError.mk s3 min max
                      (Length T min max h).1))]))).
Proof.
  intros Hs1 Hs2 Hs3. split; [| split].
  - set (v := MinLengthValidator.mk T n None).
    set (v' := MinLengthValidator.mk T n
                 (Some (printerFunc (λ e, fn (MinLengthViolationError.Min e))))).
    assert (Hr : (MinLength T n h).2 !! (MinLength T n h).1
                 = Some (ObjMinLength v)) by apply alloc_lookup.
    set (h1 := (MinLength T n h).2) in *. set (r := (MinLength T n h).1) in *.
    exists (alloc h1 (ObjMinLength v')).1, (alloc h1 (ObjMinLength v')).2.
    pose proof (alloc_lookup h1 (ObjMinLength v')) as Hr'.
    pose proof (alloc_frame h1 (ObjMinLength v') _ _ Hr) as Hr2.
    set (h2 := (alloc h1 (ObjMinLength v')).2) in *.
    set (r' := (alloc h1 (ObjMinLength v')).1) in *.
    split.
    { unfold MinLengthValidator_WithPrinterFunc, loadMinLength. rewrite Hr.
      reflexivity. }
    unfold rule_Validate.
    cbn [Name Validators rule_Validate_loop MinLengthValidator_Validator
         Validate].
    pose proof (MinLengthValidator_Validate_at h2 r' v' s1 Hr') as E1.
    pose proof (MinLengthValidator_Validate_at h2 r v s1 Hr2) as E2.
    cbn [MinLengthValidator.T MinLengthValidator.min v v'] in E1, E2.
    rewrite E1, E2.
    rewrite (proj2 (Z.ltb_lt _ _) Hs1). cbn [mbind outcome_bind app].
    unfold fmt_Errorf.
    rewrite (fmt_error_MinLength h2 (MinLengthViolationError.mk s1 n r') v' Hr'),
      (fmt_error_MinLength h2 (MinLengthViolationError.mk s1 n r) v Hr2).
    reflexivity.
  - set (v := MaxLengthValidator.mk T n None).
    set (v' := MaxLengthValidator.mk T n
                 (Some (printerFunc (λ e, fn (MaxLengthViolationError.Max e))))).
    assert (Hr : (MaxLength T n h).2 !! (MaxLength T n h).1
                 = Some (ObjMaxLength v)) by apply alloc_lookup.
    set (h1 := (MaxLength T n h).2) in *. set (r := (MaxLength T n h).1) in *.
    exists (alloc h1 (ObjMaxLength v')).1, (alloc h1 (ObjMaxLength v')).2.
    pose proof (alloc_lookup h1 (ObjMaxLength v')) as Hr'.
    pose proof (alloc_frame h1 (ObjMaxLength v') _ _ Hr) as Hr2.
    set (h2 := (alloc h1 (ObjMaxLength v')).2) in *.
    set (r' := (alloc h1 (ObjMaxLength v')).1) in *.
    split.
    { unfold MaxLengthValidator_WithPrinterFunc, loadMaxLength. rewrite Hr.
      reflexivity. }
    unfold rule_Validate.
    cbn [Name Validators rule_Validate_loop MaxLengthValidator_Validator
         Validate].
    pose proof (MaxLengthValidator_Validate_at h2 r' v' s2 Hr') as E1.
    pose proof (MaxLengthValidator_Validate_at h2 r v s2 Hr2) as E2.
    cbn [MaxLengthValidator.T MaxLengthValidator.max v v'] in E1, E2.
    rewrite E1, E2.
    rewrite (proj2 (Z.ltb_lt _ _) Hs2). cbn [mbind outcome_bind app].
    unfold fmt_Errorf.
    rewrite (fmt_error_MaxLength h2 (MaxLengthViolationError.mk s2 n r') v' Hr'),
      (fmt_error_MaxLength h2 (MaxLengthViolationError.mk s2 n r) v Hr2).
    reflexivity.
  - set (v := LengthValidator.mk T min max None).
    set (v' := LengthValidator.mk T min max
                 (Some (printerFunc
                          (λ e, fn2 (LengthViolationError.Min e)
                                    (LengthViolationError.Max e))))).
    assert (Hr : (Length T min max h).2 !! (Length T min max h).1
                 = Some (ObjLength v)) by apply alloc_lookup.
    set (h1 := (Length T min max h).2) in *.
    set (r := (Length T min max h).1) in *.
    exists (alloc h1 (ObjLength v')).1, (alloc h1 (ObjLength v')).2.
    pose proof (alloc_lookup h1 (ObjLength v')) as Hr'.
    pose proof (alloc_frame h1 (ObjLength v') _ _ Hr) as Hr2.
    set (h2 := (alloc h1 (ObjLength v')).2) in *.
    set (r' := (alloc h1 (ObjLength v')).1) in *.
    split.
    { unfold LengthValidator_WithPrinterFunc, loadLength. rewrite Hr.
      reflexivity. }
    unfold rule_Validate.
    cbn [Name Validators rule_Validate_loop LengthValidator_Validator
         Validate].
    pose proof (LengthValidator_Validate_at h2 r' v' s3 Hr') as E1.
    pose proof (LengthValidator_Validate_at h2 r v s3 Hr2) as E2.
    cbn [LengthValidator.T LengthValidator.min LengthValidator.max v v']
      in E1, E2.
    rewrite E1, E2.
    replace ((min <=? runeCount s3) && (runeCount s3 <=? max)) with false.
    2:{ symmetry. apply andb_false_iff.
        destruct Hs3; [left; apply Z.leb_gt | right; apply Z.leb_gt]; lia. }
    cbn [mbind outcome_bind app]. unfold fmt_Errorf.
    rewrite (fmt_error_Length h2 (LengthViolationError.mk s3 min max r') v' Hr'),
      (fmt_error_Length h2 (LengthViolationError.mk s3 min max r) v Hr2).
    reflexivity.
Qed.

Lemma configured_and_plain_validator_in_a_rule_witness :
  ∃ r' h',
    MinLengthValidator_WithPrinterFunc (MinLength "string" 3 ∅).2
      (MinLength "string" 3 ∅).1 (λ min, "too short") = Return (r', h')
    ∧ rule_Validate h'
        {| Name := "title";
           Validators := [MinLengthValidator_Validator r';
                          MinLengthValidator_Validator
                            (MinLength "string" 3 ∅).1];
           Offset := 0; Index := [] |}
        (reflect.Str "string" "hi")
      = Return (Some (joinError
          [wrapError "'title' too short"
             (MinLengthViolation (MinLengthViolationError.mk "hi" 3 r'));
           wrapError "'title' the length must be no less than 3"
             (MinLengthViolation
                (MinLengthViolationError.mk "hi" 3
                   (MinLength "string" 3 ∅).1))])).
Proof.
  assert (H1 : runeCount "hi" < 3) by (vm_compute; reflexivity).
  assert (H2 : 3 < runeCount "abcd") by (vm_compute; reflexivity).
  assert (H3 : runeCount "a" < 0 ∨ 0 < runeCount "a")
    by (right; vm_compute; reflexivity).
  exact (proj1 (configured_and_plain_validator_in_a_rule ∅ "string" "title"
                  3 0 0 (λ min, "too short") (λ min max, "") "hi" "abcd" "a"
                  H1 H2 H3)).
Defined.

(** ** A rule set as a validator *)

(** X16. A rule set is a validator and can be the validator of a rule of
    another rule set.  When the inner rule set returns an aggregate for
    the value of the field, the outer rule wraps the aggregate as a whole:
    its result holds a single violation, and the text of that violation
    is the quoted name of the outer rule, a space and the lines of the
    inner aggregate, so that only the first line carries the outer
    name. *)
Theorem nested_rule_set_is_one_violation
    (h : heap) (inner : list (string * rule)) (x : any) (e : error)
    (name : string) (off : Z) (index : list nat) :
  RuleSet_Validate h inner x = Return (Some e) →
  rule_Validate h
    {| Name := name; Validators := [RuleSet_Validator inner];
       Offset := off; Index := index |} x
  = Return (Some (joinError
      [wrapError ("'" +:+ name +:+ "' "
                    +:+ String.concat newline (all_texts h (indirect x) inner))
         e]))
  ∧ length (all_texts h (indirect x) inner) = length (violations e).
Proof.
  intros Hres.
  destruct (RuleSet_Validate_text h h inner x e Hres) as (Htext & Hlen & _).
  split; [| exact Hlen].
  unfold rule_Validate.
  cbn [Name Validators rule_Validate_loop RuleSet_Validator Validate].
  rewrite Hres. cbn [mbind outcome_bind app].
  unfold fmt_Errorf, fmt_error. rewrite Htext. reflexivity.
Qed.

(** A post whose article has no title: the rule set for posts reports
    one violation of two lines. *)
Lemma nested_rule_set_is_one_violation_witness :
  ∃ res,
    RuleSet_Validate example_heap [("article", rule_article)]
      (post (article "" "text")) = Return (Some res)
    ∧ length (violations res) = 1%nat
    ∧ Error example_heap res
      = Return ("'article' 'title-size' the length must be no less than 3"
                  +:+ newline +:+ "'title' requires").
Proof.
  set (e := joinError
              [joinError
                 [wrapError "'title-size' the length must be no less than 3"
                    (MinLengthViolation
                       (MinLengthViolationError.mk "" 3 1%positive))];
               joinError
                 [wrapError "'title' requires"
                    (RangeMinViolation (RangeMinViolationError.mk 1 0 ""))]]).
  assert (Hinner : RuleSet_Validate example_heap example_order
                     (article "" "text") = Return (Some e)) by reflexivity.
  pose proof (proj1 (nested_rule_set_is_one_violation example_heap
                       example_order (article "" "text") e "article" 0
                       [0%nat] Hinner)) as Hrule.
  eexists. split; [| split].
  - unfold RuleSet_Validate.
    cbn [reflect.isPointer reflect.ValueOf reflect.val post
         RuleSet_Validate_loop mbind outcome_bind].
    change (fieldOf (reflect.ValueOf (post (article "" "text"))) rule_article)
      with (Return (article "" "text")).
    cbn [mbind outcome_bind]. unfold rule_article at 1. rewrite Hrule.
    reflexivity.
  - reflexivity.
  - reflexivity.
Defined.
